(** * Culers' Corner: allocation ledger, scoring engine and vote ledger

    A shallow embedding of [server.js].  The five SQLite tables are lists of
    rows in rowid order; every prepared statement is a function on the
    database; every route handler is a function from a database and a parsed
    request to a response and a new database.

    Scope of the embedding.
    - Numbers are mathematical integers ([Z]); fractional JSON numbers and
      magnitudes beyond the exactly representable range are not covered.
      JavaScript and SQLite agree with [Z] only while every operand and every
      result lies within plus or minus 2^53 - 1 ([safe]).
    - The leaderboard score is idealised as an exact rational ([Q]); SQLite
      computes it in double precision.  The join, the grouping and the
      ordering are those of the query; the value of a score is the server's
      only where the doubles round nothing ([rounds_nothing]).  The lemmas
      on [spec_portfolio_points] are about the rational score; the theorems
      state the value of a score only where nothing is rounded.
    - [name], [email], [date], [opponent] and the text fields of a player
      are either absent (undefined or null, which the handlers treat alike)
      or a string.  [home_away] and [status] of a match are arbitrary JSON
      scalars: their defaults apply to undefined only, not to null.
    - The numeric fields of an allocation entry and of a vote ([player_id],
      [points_allocated]) are undefined, null, a boolean or a number;
      string-valued numeric fields are not covered.
    - [set] and [delta] of a point adjustment are arbitrary JSON scalars,
      strings included: the handler only inspects their [typeof].
    - better-sqlite3 runs with foreign keys enforced (its default) and
      refuses to bind a boolean (TypeError). *)

From Stdlib Require Import ZArith QArith List String Bool Lia.
From Stdlib Require Import Sorting.Sorted Sorting.Permutation.
Import ListNotations.
Local Open Scope string_scope.
Local Open Scope Z_scope.

(** ** JavaScript values *)

(** A JSON scalar of a parsed body ([set], [delta]). *)
Inductive jsval : Type :=
| JUndefined
| JNull
| JBool (b : bool)
| JNum (z : Z)
| JStr (s : string).

Inductive jstype : Type := TUndefined | TObject | TBoolean | TNumber | TString.

Definition typeof (v : jsval) : jstype :=
  match v with
  | JUndefined => TUndefined
  | JNull => TObject
  | JBool _ => TBoolean
  | JNum _ => TNumber
  | JStr _ => TString
  end.

(** A numeric field of an allocation entry or of a vote. *)
Inductive field : Type :=
| FUndefined
| FNull
| FBool (b : bool)
| FNum (z : Z).

(** The result of [Number(...)] and of JavaScript addition. *)
Inductive number : Type :=
| Int (z : Z)
| NaN.

(** ToBoolean. *)
Definition truthy (v : field) : bool :=
  match v with
  | FUndefined | FNull => false
  | FBool b => b
  | FNum z => negb (z =? 0)
  end.

(** [a || b]. *)
Definition js_or (a b : field) : field := if truthy a then a else b.

(** [Number(v)]. *)
Definition Number (v : field) : number :=
  match v with
  | FUndefined => NaN
  | FNull => Int 0
  | FBool true => Int 1
  | FBool false => Int 0
  | FNum z => Int z
  end.

(** [a + b] on numbers. *)
Definition js_add (a b : number) : number :=
  match a, b with
  | Int x, Int y => Int (x + y)
  | _, _ => NaN
  end.

(** [a === b] on numbers: NaN equals nothing. *)
Definition strict_eq (a b : number) : bool :=
  match a, b with
  | Int x, Int y => x =? y
  | _, _ => false
  end.

(** [!s] for a text field that is absent or a string. *)
Definition missing (s : option string) : bool :=
  match s with
  | None => true
  | Some t => String.eqb t EmptyString
  end.

(** The string carried by a text field (the empty string when absent). *)
Definition text (s : option string) : string :=
  match s with
  | None => EmptyString
  | Some t => t
  end.

(** ** The database *)

Record user_row : Type := mkUser
  { u_id : Z; u_name : string; u_email : string }.

Record player_row : Type := mkPlayer
  { p_id : Z; p_name : string; p_club : string; p_photo_url : string;
    p_total_points : Z }.

Record allocation_row : Type := mkAllocation
  { a_id : Z; a_user_id : Z; a_player_id : Z; a_points_allocated : Z }.

(** A cell of a nullable TEXT column: NULL, a text, or the text form that
    SQLite gives a number bound to the column. *)
Inductive text_cell : Type :=
| CNull
| CText (s : string)
| CNumber (z : Z).

Record match_row : Type := mkMatch
  { m_id : Z; m_date : string; m_opponent : string; m_home_away : text_cell;
    m_status : text_cell }.

Record vote_row : Type := mkVote
  { v_id : Z; v_match_id : Z; v_player_id : Z; v_user_email : string;
    v_created_at : string }.

Record db : Type := mkDb
  { users : list user_row;
    players : list player_row;
    allocations : list allocation_row;
    matches : list match_row;
    potm_votes : list vote_row }.

Definition set_users (d : db) (l : list user_row) : db :=
  mkDb l (players d) (allocations d) (matches d) (potm_votes d).
Definition set_players (d : db) (l : list player_row) : db :=
  mkDb (users d) l (allocations d) (matches d) (potm_votes d).
Definition set_allocations (d : db) (l : list allocation_row) : db :=
  mkDb (users d) (players d) l (matches d) (potm_votes d).
Definition set_matches (d : db) (l : list match_row) : db :=
  mkDb (users d) (players d) (allocations d) l (potm_votes d).
Definition set_potm_votes (d : db) (l : list vote_row) : db :=
  mkDb (users d) (players d) (allocations d) (matches d) l.

(** INTEGER PRIMARY KEY AUTOINCREMENT: one more than the largest rowid.
    Rows are never deleted, so for [users], [players] and [matches] the
    largest rowid ever used is the largest rowid present.  In [allocations]
    and [potm_votes] an upsert that updates also uses up a rowid, so there
    the id of a later new row can be larger than the one computed here; no
    statement below depends on the id a new allocation or vote receives. *)
Definition next_id (ids : list Z) : Z := 1 + fold_right Z.max 0 ids.
Arguments next_id : simpl never.

(** The tables right after the schema and the seed rows are created. *)
Definition init_db (today : string) : db :=
  mkDb []
       [ mkPlayer 1 "Lamine Yamal" "FC Barcelona" EmptyString 0;
         mkPlayer 2 "Pedri" "FC Barcelona" EmptyString 0;
         mkPlayer 3 "Gavi" "FC Barcelona" EmptyString 0 ]
       []
       [ mkMatch 1 today "Real Madrid" (CText "HOME") (CText "final") ]
       [].

(** ** Statements: state and exceptions *)

Inductive exn : Type :=
| TypeError
| SqliteConstraint
| JsError (msg : string).

Inductive outcome (A : Type) : Type :=
| Return (a : A)
| Throw (e : exn).
Arguments Return {A} a.
Arguments Throw {A} e.

(** A computation on the database.  A statement that throws leaves the
    database as the statements before it left it. *)
Definition M (A : Type) : Type := db -> outcome A * db.

Definition ret {A} (a : A) : M A := fun d => (Return a, d).

Definition throw {A} (e : exn) : M A := fun d => (Throw e, d).

Definition bind {A B} (m : M A) (k : A -> M B) : M B :=
  fun d =>
    match m d with
    | (Return a, d') => k a d'
    | (Throw e, d') => (Throw e, d')
    end.

Notation "x <- m ;; k" := (bind m (fun x => k))
  (at level 61, m at next level, right associativity).
Notation "m ;;; k" := (bind m (fun _ => k))
  (at level 61, right associativity).

(** [db.transaction(fn)]: commit when [fn] returns, roll back and rethrow
    when it throws. *)
Definition transaction {A} (fn : M A) : M A :=
  fun d =>
    match fn d with
    | (Return a, d') => (Return a, d')
    | (Throw e, _) => (Throw e, d)
    end.

(** Binding a numeric field as a statement parameter: a number is bound as
    itself, null and undefined as NULL, a boolean is refused. *)
Definition bind_param (v : field) : M (option Z) :=
  match v with
  | FBool _ => throw TypeError
  | FNum z => ret (Some z)
  | FUndefined | FNull => ret None
  end.

(** [SELECT * FROM users WHERE email = ?] *)
Definition getUserByEmail (email : string) : M (option user_row) :=
  fun d => (Return (find (fun u => String.eqb (u_email u) email) (users d)), d).

(** [INSERT INTO users (name, email) VALUES (?, ?)], under UNIQUE(email);
    returns lastInsertRowid. *)
Definition createUser (name email : string) : M Z :=
  fun d =>
    if existsb (fun u => String.eqb (u_email u) email) (users d)
    then (Throw SqliteConstraint, d)
    else
      let id := next_id (map u_id (users d)) in
      (Return id, set_users d (users d ++ [mkUser id name email])).

Definition has_user (d : db) (id : Z) : bool :=
  existsb (fun u => u_id u =? id) (users d).
Definition has_player (d : db) (id : Z) : bool :=
  existsb (fun p => p_id p =? id) (players d).
Definition has_match (d : db) (id : Z) : bool :=
  existsb (fun m => m_id m =? id) (matches d).

Definition alloc_conflict (user_id player_id : Z) (a : allocation_row) : bool :=
  (a_user_id a =? user_id) && (a_player_id a =? player_id).

(** The DO UPDATE clause of the upsert below, on one row. *)
Definition with_points (user_id player_id pts : Z) (a : allocation_row)
  : allocation_row :=
  if alloc_conflict user_id player_id a
  then mkAllocation (a_id a) (a_user_id a) (a_player_id a) pts
  else a.

(** [INSERT INTO allocations (user_id, player_id, points_allocated)
     VALUES (?, ?, ?)
     ON CONFLICT(user_id, player_id)
     DO UPDATE SET points_allocated = excluded.points_allocated] *)
Definition upsertAllocation (user_id : Z) (player_id points_allocated : field)
  : M unit :=
  pid <- bind_param player_id ;;
  pts <- bind_param points_allocated ;;
  fun d =>
    match pid, pts with
    | Some pid, Some pts =>
        (* CHECK(points_allocated >= 0) *)
        if pts <? 0 then (Throw SqliteConstraint, d)
        (* UNIQUE(user_id, player_id): ON CONFLICT DO UPDATE *)
        else if existsb (alloc_conflict user_id pid) (allocations d) then
          (Return tt,
           set_allocations d
             (map (with_points user_id pid pts) (allocations d)))
        (* FOREIGN KEY(user_id), FOREIGN KEY(player_id) *)
        else if has_user d user_id && has_player d pid then
          (Return tt,
           set_allocations d
             (allocations d ++
                [mkAllocation (next_id (map a_id (allocations d))) user_id pid pts]))
        else (Throw SqliteConstraint, d)
    (* NOT NULL *)
    | _, _ => (Throw SqliteConstraint, d)
    end.

Definition vote_conflict (match_id : Z) (email : string) (v : vote_row) : bool :=
  (v_match_id v =? match_id) && String.eqb (v_user_email v) email.

(** The DO UPDATE clause of the upsert below, on one row. *)
Definition with_vote (match_id : Z) (email : string) (player_id : Z)
  (now : string) (v : vote_row) : vote_row :=
  if vote_conflict match_id email v
  then mkVote (v_id v) (v_match_id v) player_id (v_user_email v) now
  else v.

(** [INSERT INTO potm_votes (match_id, player_id, user_email)
     VALUES (?, ?, ?)
     ON CONFLICT(match_id, user_email)
     DO UPDATE SET player_id = excluded.player_id, created_at = datetime('now')] *)
Definition upsertVote (now : string) (match_id : Z) (player_id : field)
  (email : string) : M unit :=
  pid <- bind_param player_id ;;
  fun d =>
    match pid with
    | Some pid =>
        (* FOREIGN KEY(player_id), for the inserted and for the updated row *)
        if negb (has_player d pid) then (Throw SqliteConstraint, d)
        (* UNIQUE(match_id, user_email): ON CONFLICT DO UPDATE *)
        else if existsb (vote_conflict match_id email) (potm_votes d) then
          (Return tt,
           set_potm_votes d
             (map (with_vote match_id email pid now) (potm_votes d)))
        (* FOREIGN KEY(match_id) *)
        else if has_match d match_id then
          (Return tt,
           set_potm_votes d
             (potm_votes d ++
                [mkVote (next_id (map v_id (potm_votes d))) match_id pid email now]))
        else (Throw SqliteConstraint, d)
    (* NOT NULL *)
    | None => (Throw SqliteConstraint, d)
    end.

(** The computation throws in the given state. *)
Definition throws {A} (m : M A) (d : db) : Prop :=
  exists e d', m d = (Throw e, d').

(** The computation leaves a table as it found it, whatever its outcome. *)
Definition keeps {T} (table : db -> T) {A} (m : M A) : Prop :=
  forall d o d', m d = (o, d') -> table d' = table d.

(** ** Route handlers *)

Inductive response : Type :=
| ok_id (id : Z)
| ok_total (id : number) (total_points : Z)
| ok_user (user : user_row)
| ok_true
| error (status : Z) (msg : string)
| uncaught (e : exn).

(** [POST /api/players] *)
Definition createPlayer (name club photo_url : option string) (d : db)
  : response * db :=
  if missing name then (error 400 "name required", d)
  else
    let id := next_id (map p_id (players d)) in
    (ok_id id,
     set_players d
       (players d ++ [mkPlayer id (text name) (text club) (text photo_url) 0])).

(** [SELECT * FROM players WHERE id = ?]; a NaN id is bound as NULL and
    matches no row. *)
Definition getPlayer (id : number) (d : db) : option player_row :=
  match id with
  | Int i => find (fun p => p_id p =? i) (players d)
  | NaN => None
  end.

(** The SET and WHERE clauses of the update below, on one row. *)
Definition with_total_points (i newTotal : Z) (p : player_row) : player_row :=
  if p_id p =? i
  then mkPlayer (p_id p) (p_name p) (p_club p) (p_photo_url p) newTotal
  else p.

(** [UPDATE players SET total_points = ? WHERE id = ?] *)
Definition updateTotalPoints (newTotal : Z) (id : number) (d : db) : db :=
  match id with
  | Int i =>
      set_players d (map (with_total_points i newTotal) (players d))
  | NaN => d
  end.

(** [POST /api/players/:id/points]; [id] is [Number(req.params.id)]. *)
Definition adjustPoints (id : number) (delta set : jsval) (d : db)
  : response * db :=
  match getPlayer id d with
  | None => (error 404 "Player not found", d)
  | Some row =>
      let newTotal := p_total_points row in
      let newTotal := match set with JNum s => s | _ => newTotal end in
      let newTotal := match delta with JNum dl => newTotal + dl | _ => newTotal end in
      (ok_total id newTotal, updateTotalPoints newTotal id d)
  end.

(** One element of [allocations]. *)
Record entry : Type := mkEntry
  { player_id : field; points_allocated : field }.

(** [allocations.reduce((s, a) => s + Number(a.points_allocated || 0), 0)] *)
Definition total (entries : list entry) : number :=
  fold_left (fun s a => js_add s (Number (js_or (points_allocated a) (FNum 0))))
            entries (Int 0).

(** Look the user up by email and create it when there is none; both
    [POST /api/allocate] and [POST /api/potm/:match_id/vote] inline this. *)
Definition resolveUser (name email : string) : M user_row :=
  user <- getUserByEmail email ;;
  match user with
  | Some u => ret u
  | None =>
      id <- createUser name email ;;
      ret (mkUser id name email)
  end.

(** [for (const a of allocations) { ... }] *)
Fixpoint upsertEntries (user_id : Z) (entries : list entry) : M unit :=
  match entries with
  | [] => ret tt
  | a :: rest =>
      if negb (truthy (player_id a)) then throw (JsError "player_id missing")
      else
        upsertAllocation user_id (player_id a) (points_allocated a) ;;;
        upsertEntries user_id rest
  end.

(** The body handed to [db.transaction]. *)
Definition tx (name email : string) (entries : list entry) : M user_row :=
  transaction
    (user <- resolveUser name email ;;
     upsertEntries (u_id user) entries ;;;
     ret user).

(** [POST /api/allocate]; [allocations] is [None] when the body field is
    not an array. *)
Definition submitAllocations (name email : option string)
  (allocations : option (list entry)) (d : db) : response * db :=
  if missing name || missing email then
    (error 400 "name, email, allocations[] required", d)
  else
    match allocations with
    | None => (error 400 "name, email, allocations[] required", d)
    | Some entries =>
        if negb (strict_eq (total entries) (Int 100)) then
          (error 400 "Total allocated points must equal 100", d)
        else
          match tx (text name) (text email) entries d with
          | (Return user, d') => (ok_user user, d')
          | (Throw _, d') => (error 500 "Allocation failed", d')
          end
    end.

(** A destructuring default, [{ x = dflt }]: used when [x] is undefined,
    and only then. *)
Definition or_default (dflt : string) (v : jsval) : jsval :=
  match v with
  | JUndefined => JStr dflt
  | _ => v
  end.

(** Binding a value to a parameter that feeds a nullable TEXT column.
    [None]: better-sqlite3 refuses the value. *)
Definition bind_text (v : jsval) : option text_cell :=
  match v with
  | JUndefined | JNull => Some CNull
  | JBool _ => None
  | JNum z => Some (CNumber z)
  | JStr s => Some (CText s)
  end.

(** [CHECK(home_away in ('HOME','AWAY'))]; a check that evaluates to NULL
    passes. *)
Definition home_away_check (c : text_cell) : bool :=
  match c with
  | CNull => true
  | CText s => String.eqb s "HOME" || String.eqb s "AWAY"
  | CNumber _ => false
  end.

(** [POST /api/matches] *)
Definition createMatch (date opponent : option string) (home_away status : jsval)
  (d : db) : response * db :=
  if missing date || missing opponent then
    (error 400 "date and opponent required", d)
  else
    match bind_text (or_default "HOME" home_away),
          bind_text (or_default "final" status) with
    | Some home_away, Some status =>
        if home_away_check home_away then
          let id := next_id (map m_id (matches d)) in
          (ok_id id,
           set_matches d
             (matches d
              ++ [mkMatch id (text date) (text opponent) home_away status]))
        else (uncaught SqliteConstraint, d)
    | _, _ => (uncaught TypeError, d)
    end.

(** [SELECT * FROM matches WHERE id = ?] *)
Definition getMatch (id : number) (d : db) : option match_row :=
  match id with
  | Int i => find (fun m => m_id m =? i) (matches d)
  | NaN => None
  end.

(** [POST /api/potm/:match_id/vote]; [match_id] is
    [Number(req.params.match_id)], [now] is what [datetime('now')] yields.
    The handler has no try/catch and no transaction: an exception escapes
    to Express and the statements before it stay committed. *)
Definition castVote (now : string) (match_id : number)
  (name email : option string) (player_id : field) (d : db) : response * db :=
  if missing name || missing email || negb (truthy player_id) then
    (error 400 "name, email, player_id required", d)
  else
    match match_id, getMatch match_id d with
    | Int mid, Some _ =>
        match (resolveUser (text name) (text email) ;;;
               upsertVote now mid player_id (text email)) d with
        | (Return _, d') => (ok_true, d')
        | (Throw e, d') => (uncaught e, d')
        end
    | _, _ => (error 404 "Match not found", d)
    end.

(** ** Queries *)

(** [ORDER BY]: a stable insertion sort under the comparison [leb]. *)
Fixpoint insert_by {A} (leb : A -> A -> bool) (x : A) (l : list A) : list A :=
  match l with
  | [] => [x]
  | y :: rest => if leb x y then x :: l else y :: insert_by leb x rest
  end.

Definition order_by {A} (leb : A -> A -> bool) (l : list A) : list A :=
  fold_right (insert_by leb) [] l.

(** [l LEFT JOIN r ON on]: every left row, paired with each matching right
    row, or with NULL when none matches. *)
Definition joined {A B} (on : A -> B -> bool) (r : list B) (a : A)
  : list (A * option B) :=
  match filter (on a) r with
  | [] => [(a, None)]
  | bs => map (fun b => (a, Some b)) bs
  end.

Definition left_join {A B} (on : A -> B -> bool) (l : list A) (r : list B)
  : list (A * option B) :=
  flat_map (joined on r) l.

(** The distinct keys of a list, in order of first occurrence. *)
Fixpoint group_keys (seen ks : list Z) : list Z :=
  match ks with
  | [] => []
  | k :: rest =>
      if existsb (Z.eqb k) seen then group_keys seen rest
      else k :: group_keys (k :: seen) rest
  end.

(** [GROUP BY key]: one group of rows per distinct key. *)
Definition group_by {A} (key : A -> Z) (rows : list A) : list (list A) :=
  map (fun k => filter (fun x => key x =? k) rows)
      (group_keys [] (map key rows)).

(** [SUM(...)]: NULL terms are skipped; NULL when no term is left.  The
    terms are added in the rationals, where SQLite adds doubles. *)
Definition sql_sum (terms : list (option Q)) : option Q :=
  fold_left (fun acc t =>
               match t with
               | None => acc
               | Some q => Some (match acc with None => q | Some s => (s + q)%Q end)
               end) terms None.

(** [COALESCE(x, dflt)] *)
Definition coalesce (x : option Q) (dflt : Q) : Q :=
  match x with Some q => q | None => dflt end.

(** [COUNT(x)]: the number of non-NULL values. *)
Definition sql_count {A} (l : list (option A)) : Z :=
  Z.of_nat (List.length (filter (fun x => match x with Some _ => true | None => false end) l)).

Record leaderboard_row : Type := mkLeaderboardRow
  { lb_id : Z; lb_name : string; lb_email : string; lb_portfolio_points : Q }.

Definition joined_row : Type :=
  ((user_row * option allocation_row) * option player_row)%type.

(** [users u LEFT JOIN allocations a ON a.user_id = u.id
             LEFT JOIN players p ON p.id = a.player_id] *)
Definition leaderboard_join (d : db) : list joined_row :=
  left_join (fun (ua : user_row * option allocation_row) p =>
               match snd ua with
               | Some a => p_id p =? a_player_id a
               | None => false
               end)
            (left_join (fun u a => a_user_id a =? u_id u) (users d) (allocations d))
            (players d).

(** [a.points_allocated * p.total_points / 100.0], in the rationals, where
    SQLite rounds the quotient to a double. *)
Definition portfolio_term (r : joined_row) : option Q :=
  match r with
  | ((_, Some a), Some p) =>
      Some (inject_Z (a_points_allocated a * p_total_points p) / inject_Z 100)%Q
  | _ => None
  end.

(** The select list of the leaderboard query, for one group. *)
Definition leaderboard_select (g : list joined_row) : list leaderboard_row :=
  match g with
  | [] => []
  | ((u, _), _) :: _ =>
      [mkLeaderboardRow (u_id u) (u_name u) (u_email u)
         (coalesce (sql_sum (map portfolio_term g)) 0%Q)]
  end.

(** [ORDER BY portfolio_points DESC, u.id ASC] *)
Definition leaderboard_leb (x y : leaderboard_row) : bool :=
  match (lb_portfolio_points y ?= lb_portfolio_points x)%Q with
  | Lt => true
  | Eq => lb_id x <=? lb_id y
  | Gt => false
  end.

(** The leaderboard query without its LIMIT. *)
Definition leaderboard_all (d : db) : list leaderboard_row :=
  order_by leaderboard_leb
    (flat_map leaderboard_select
       (group_by (fun r : joined_row => u_id (fst (fst r))) (leaderboard_join d))).

(** [GET /api/leaderboard] *)
Definition leaderboard (d : db) : list leaderboard_row :=
  firstn 100 (leaderboard_all d).

Record result_row : Type := mkResultRow
  { r_player_id : Z; r_player_name : string; r_votes : Z }.

(** [players p LEFT JOIN potm_votes v
       ON v.player_id = p.id AND v.match_id = ?] *)
Definition results_join (match_id : number) (d : db)
  : list (player_row * option vote_row) :=
  left_join (fun p v =>
               (v_player_id v =? p_id p) &&
               match match_id with
               | Int m => v_match_id v =? m
               | NaN => false
               end)
            (players d) (potm_votes d).

(** The select list of the results query, for one group. *)
Definition results_select (g : list (player_row * option vote_row))
  : list result_row :=
  match g with
  | [] => []
  | (p, _) :: _ =>
      [mkResultRow (p_id p) (p_name p)
         (sql_count (map (fun r => option_map v_id (snd r)) g))]
  end.

(** [ORDER BY votes DESC, p.name ASC] *)
Definition results_leb (x y : result_row) : bool :=
  match r_votes y ?= r_votes x with
  | Lt => true
  | Eq => String.leb (r_player_name x) (r_player_name y)
  | Gt => false
  end.

(** [GET /api/potm/:match_id/results] *)
Definition results (match_id : number) (d : db) : list result_row :=
  order_by results_leb
    (flat_map results_select
       (group_by (fun r : player_row * option vote_row => p_id (fst r))
                 (results_join match_id d))).

(** ** The server as a transition system *)

Inductive request : Type :=
| CreatePlayer (name club photo_url : option string)
| AdjustPoints (id : number) (delta set : jsval)
| SubmitAllocations (name email : option string) (allocations : option (list entry))
| CreateMatch (date opponent : option string) (home_away status : jsval)
| CastVote (now : string) (match_id : number) (name email : option string)
    (player_id : field).

Definition handle (r : request) (d : db) : response * db :=
  match r with
  | CreatePlayer name club photo_url => createPlayer name club photo_url d
  | AdjustPoints id delta set => adjustPoints id delta set d
  | SubmitAllocations name email allocations =>
      submitAllocations name email allocations d
  | CreateMatch date opponent home_away status =>
      createMatch date opponent home_away status d
  | CastVote now match_id name email player_id =>
      castVote now match_id name email player_id d
  end.

(** The database after a sequence of requests. *)
Definition run (rs : list request) (d : db) : db :=
  fold_left (fun d r => snd (handle r d)) rs d.

(** ** Keys and constraints of the schema *)

Fixpoint distinct {A} (eqb : A -> A -> bool) (l : list A) : bool :=
  match l with
  | [] => true
  | x :: rest => negb (existsb (eqb x) rest) && distinct eqb rest
  end.

Definition alloc_key (a : allocation_row) : Z * Z := (a_user_id a, a_player_id a).
Definition alloc_key_eqb (x y : Z * Z) : bool :=
  (fst x =? fst y) && (snd x =? snd y).

Definition vote_key (v : vote_row) : Z * string := (v_match_id v, v_user_email v).
Definition vote_key_eqb (x y : Z * string) : bool :=
  (fst x =? fst y) && String.eqb (snd x) (snd y).

(** PRIMARY KEY of users and players, UNIQUE(email),
    UNIQUE(user_id, player_id), UNIQUE(match_id, user_email). *)
Definition well_formed (d : db) : bool :=
  distinct Z.eqb (map u_id (users d)) &&
  distinct String.eqb (map u_email (users d)) &&
  distinct Z.eqb (map p_id (players d)) &&
  distinct alloc_key_eqb (map alloc_key (allocations d)) &&
  distinct vote_key_eqb (map vote_key (potm_votes d)).

(** The same constraints as propositions. *)
Record wf (d : db) : Prop := mkWf
  { wf_user_ids : NoDup (map u_id (users d));
    wf_emails : NoDup (map u_email (users d));
    wf_player_ids : NoDup (map p_id (players d));
    wf_alloc_keys : NoDup (map alloc_key (allocations d));
    wf_vote_keys : NoDup (map vote_key (potm_votes d)) }.

(** The conflict tests of the two upserts, by key. *)
Definition alloc_hit (k : Z * Z) : allocation_row -> bool :=
  alloc_conflict (fst k) (snd k).

Definition vote_hit (k : Z * string) : vote_row -> bool :=
  vote_conflict (fst k) (snd k).

(** The allocation rows of one (user, player) pair. *)
Definition allocations_of (user_id player_id : Z) (d : db) : list allocation_row :=
  filter (alloc_conflict user_id player_id) (allocations d).

(** The vote rows of one (match, email) pair. *)
Definition votes_of (match_id : Z) (email : string) (d : db) : list vote_row :=
  filter (vote_conflict match_id email) (potm_votes d).

(** ** The specification's formulas *)

(** The total of a submission as the specification words it: a value that
    is not a number counts 0. *)
Definition spec_total (entries : list entry) : Z :=
  fold_right (fun a s =>
                match points_allocated a with
                | FNum z => z + s
                | _ => s
                end) 0 entries.

(** What one entry contributes to the handler's total,
    [Number(a.points_allocated || 0)]: undefined, null, false and 0
    contribute 0, true contributes 1, a number contributes itself. *)
Definition points_value (a : entry) : Z :=
  match points_allocated a with
  | FNum z => z
  | FBool true => 1
  | _ => 0
  end.

(** A validation error is a 400 response. *)
Definition ValidationError (r : response) : Prop :=
  exists msg, r = error 400 msg.

(** [total_points] of the player an allocation refers to. *)
Definition total_points_of (d : db) (player_id : Z) : option Z :=
  option_map p_total_points (find (fun p => p_id p =? player_id) (players d)).

(** Sum over the user's allocations of
    points_allocated * player.total_points / 100. *)
Definition spec_portfolio_points (d : db) (user_id : Z) : Q :=
  fold_right
    (fun a s =>
       match total_points_of d (a_player_id a) with
       | Some tp =>
           (inject_Z (a_points_allocated a) * inject_Z tp / inject_Z 100 + s)%Q
       | None => s
       end)
    0%Q
    (filter (fun a => a_user_id a =? user_id) (allocations d)).

(** What one allocation contributes to the score in the specification. *)
Definition spec_term (d : db) (a : allocation_row) : Q :=
  match total_points_of d (a_player_id a) with
  | Some tp => (inject_Z (a_points_allocated a) * inject_Z tp / inject_Z 100)%Q
  | None => 0%Q
  end.

(** The sum of the terms that are not NULL. *)
Definition sum_terms (terms : list (option Q)) : Q :=
  fold_right (fun t s => match t with Some q => (q + s)%Q | None => s end)
             0%Q terms.

(** [points_allocated * total_points] of an allocation, 0 when its player
    is missing. *)
Definition product (d : db) (a : allocation_row) : Z :=
  match total_points_of d (a_player_id a) with
  | Some tp => a_points_allocated a * tp
  | None => 0
  end.

(** The score of a user takes no rounding: every product of the user's
    allocations is a multiple of 100, so that each division by 100.0 is
    exact, and the products together stay within the integers a double
    holds exactly, so that every partial sum is exact. *)
Definition rounds_nothing (d : db) (user_id : Z) : bool :=
  let mine := filter (fun a => a_user_id a =? user_id) (allocations d) in
  forallb (fun a => product d a mod 100 =? 0) mine
  && (fold_right (fun a s => Z.abs (product d a) + s) 0 mine
      <=? 9007199254740991).

(** The rows of the leaderboard join that belong to one user. *)
Definition user_join (d : db) (u : user_row) : list joined_row :=
  flat_map
    (joined (fun (ua : user_row * option allocation_row) p =>
               match snd ua with
               | Some a => p_id p =? a_player_id a
               | None => false
               end)
            (players d))
    (joined (fun u a => a_user_id a =? u_id u) (allocations d) u).

(** The leaderboard row of one user, as the query computes it. *)
Definition user_row_of (d : db) (u : user_row) : leaderboard_row :=
  mkLeaderboardRow (u_id u) (u_name u) (u_email u)
    (coalesce (sql_sum (map portfolio_term (user_join d u))) 0%Q).

(** The number of votes cast for a player in a match. *)
Definition spec_votes (match_id : number) (d : db) (player_id : Z) : Z :=
  match match_id with
  | Int m =>
      Z.of_nat (List.length
                  (filter (fun v => (v_player_id v =? player_id) && (v_match_id v =? m))
                          (potm_votes d)))
  | NaN => 0
  end.

(** The row of the results the specification promises for one player. *)
Definition results_row (match_id : number) (d : db) (p : player_row) : result_row :=
  mkResultRow (p_id p) (p_name p) (spec_votes match_id d (p_id p)).

(** Descending by portfolio_points, ties by ascending user id. *)
Definition leaderboard_order (x y : leaderboard_row) : Prop :=
  (lb_portfolio_points y < lb_portfolio_points x)%Q \/
  ((lb_portfolio_points x == lb_portfolio_points y)%Q /\ lb_id x <= lb_id y).

(** Lexicographic order of names. *)
Definition name_le (s t : string) : Prop := String.compare s t <> Gt.

(** Descending by votes, ties by ascending player name. *)
Definition results_order (x y : result_row) : Prop :=
  r_votes y < r_votes x \/
  (r_votes x = r_votes y /\ name_le (r_player_name x) (r_player_name y)).

(** The new total of a point adjustment: [set] first, then [delta]. *)
Definition spec_new_total (old : Z) (delta set : option Z) : Z :=
  let t := match set with Some s => s | None => old end in
  match delta with Some dl => t + dl | None => t end.

(** The number a JSON scalar carries, when its [typeof] is ['number']. *)
Definition given (v : jsval) : option Z :=
  match v with JNum z => Some z | _ => None end.

(** The entry names the player. *)
Definition names (pid : Z) (a : entry) : bool :=
  match player_id a with
  | FNum p => p =? pid
  | _ => false
  end.

(** The points of the last entry of a submission that names the player. *)
Fixpoint last_points (pid : Z) (entries : list entry) : option field :=
  match entries with
  | [] => None
  | a :: rest =>
      match last_points pid rest with
      | Some q => Some q
      | None => if names pid a then Some (points_allocated a) else None
      end
  end.

(** Some entry of the submission has no [player_id]. *)
Definition lacks_player_id (entries : list entry) : bool :=
  existsb (fun a => negb (truthy (player_id a))) entries.


(** ** Two sentences of the specification, as it words them *)

(** A submission whose specified total is not 100 is rejected with a
    validation error and writes nothing. *)
Definition rejects_off_total_as_specified (name email : option string)
  (entries : list entry) (d : db) : Prop :=
  spec_total entries <> 100 ->
  ValidationError (fst (submitAllocations name email (Some entries) d)) /\
  snd (submitAllocations name email (Some entries) d) = d.

(** A submission with an entry that has no [player_id] is rejected with a
    validation error and applies no entry. *)
Definition rejects_missing_player_id_as_specified (name email : option string)
  (entries : list entry) (d : db) : Prop :=
  lacks_player_id entries = true ->
  ValidationError (fst (submitAllocations name email (Some entries) d)) /\
  snd (submitAllocations name email (Some entries) d) = d.

(** ** The list routes *)

(** [ORDER BY id] *)
Definition players_leb (x y : player_row) : bool := p_id x <=? p_id y.

(** [GET /api/players]: [SELECT * FROM players ORDER BY id] *)
Definition listPlayers (d : db) : list player_row :=
  order_by players_leb (players d).

(** [ORDER BY date DESC, id DESC] *)
Definition matches_leb (x y : match_row) : bool :=
  match String.compare (m_date y) (m_date x) with
  | Lt => true
  | Eq => m_id y <=? m_id x
  | Gt => false
  end.

(** [GET /api/matches]: [SELECT * FROM matches ORDER BY date DESC, id DESC] *)
Definition listMatches (d : db) : list match_row :=
  order_by matches_leb (matches d).

(** Ascending by id. *)
Definition players_order (x y : player_row) : Prop := p_id x <= p_id y.

(** Descending by date, ties by descending id. *)
Definition matches_order (x y : match_row) : Prop :=
  String.compare (m_date y) (m_date x) = Lt \/
  (m_date x = m_date y /\ m_id y <= m_id x).

(** ** The references and checks of the schema *)

Definition has_email (d : db) (email : string) : bool :=
  existsb (fun u => String.eqb (u_email u) email) (users d).

(** Rowids start at 1; FOREIGN KEY(user_id), FOREIGN KEY(player_id) and
    CHECK(points_allocated >= 0) of allocations; FOREIGN KEY(match_id) and
    FOREIGN KEY(player_id) of potm_votes; and the user row the vote route
    ensures for the email of every vote. *)
Record referential (d : db) : Prop := mkReferential
  { ref_user_ids : forall u, In u (users d) -> 1 <= u_id u;
    ref_player_ids : forall p, In p (players d) -> 1 <= p_id p;
    ref_match_ids : forall m, In m (matches d) -> 1 <= m_id m;
    ref_alloc_user :
      forall a, In a (allocations d) -> has_user d (a_user_id a) = true;
    ref_alloc_player :
      forall a, In a (allocations d) -> has_player d (a_player_id a) = true;
    ref_alloc_points :
      forall a, In a (allocations d) -> 0 <= a_points_allocated a;
    ref_vote_match :
      forall v, In v (potm_votes d) -> has_match d (v_match_id v) = true;
    ref_vote_player :
      forall v, In v (potm_votes d) -> has_player d (v_player_id v) = true;
    ref_vote_user :
      forall v, In v (potm_votes d) -> has_email d (v_user_email v) = true }.

(** An entry the transaction can write: a player id that is a number other
    than 0 and names a player, and points that are a number not below 0. *)
Definition writable (d : db) (a : entry) : bool :=
  match player_id a, points_allocated a with
  | FNum pid, FNum pts => negb (pid =? 0) && (0 <=? pts) && has_player d pid
  | _, _ => false
  end.

(** The integers that JavaScript numbers and SQLite's doubles hold exactly:
    [Number.MIN_SAFE_INTEGER] to [Number.MAX_SAFE_INTEGER]. *)
Definition safe (z : Z) : Prop :=
  - 9007199254740991 <= z <= 9007199254740991.

Definition safe_value (v : jsval) : Prop :=
  match v with
  | JNum z => safe z
  | _ => True
  end.

(** An entry that no transaction can write, whatever else it holds: points
    that are a negative number, or a player id that is a number and names no
    player. *)
Definition refused (d : db) (a : entry) : bool :=
  match points_allocated a with
  | FNum pts => pts <? 0
  | _ => false
  end
  || match player_id a with
     | FNum pid => negb (has_player d pid)
     | _ => false
     end.

(** ** Rows are kept *)

(** [l'] is [l] with rows added at the end. *)
Definition extends {A} (l l' : list A) : Prop :=
  exists added, l' = (l ++ added)%list.

(** The columns of a player that no statement of the server updates. *)
Definition player_identity (p : player_row) : Z * string * string * string :=
  (p_id p, p_name p, p_club p, p_photo_url p).

(** The columns of an allocation that no statement of the server updates. *)
Definition allocation_identity (a : allocation_row) : Z * Z * Z :=
  (a_id a, a_user_id a, a_player_id a).

(** The columns of a vote that no statement of the server updates. *)
Definition vote_identity (v : vote_row) : Z * Z * string :=
  (v_id v, v_match_id v, v_user_email v).

(** From [d] to [d'] no row was deleted and no identifying column changed. *)
Record grows (d d' : db) : Prop := mkGrows
  { grows_users : extends (users d) (users d');
    grows_players :
      extends (map player_identity (players d)) (map player_identity (players d'));
    grows_allocations :
      extends (map allocation_identity (allocations d))
              (map allocation_identity (allocations d'));
    grows_matches : extends (matches d) (matches d');
    grows_potm_votes :
      extends (map vote_identity (potm_votes d))
              (map vote_identity (potm_votes d')) }.

(** ** Counting *)

(** The sum of [f] over a list. *)
Definition sum_over {A} (f : A -> Z) (l : list A) : Z :=
  fold_right (fun x s => f x + s) 0 l.

(** The vote rows of one match. *)
Definition votes_in (m : Z) (d : db) : list vote_row :=
  filter (fun v => v_match_id v =? m) (potm_votes d).
(** * Properties *)

(** ** JavaScript values *)

Lemma typeof_number v : typeof v = TNumber <-> exists z, v = JNum z.
Proof.
  split.
  - destruct v; simpl; try discriminate. intros _. now exists z.
  - intros [z ->]. reflexivity.
Qed.

Lemma given_not_number v : typeof v <> TNumber -> given v = None.
Proof. destruct v; simpl; intros H; try reflexivity. now elim H. Qed.

Lemma strict_eq_true a z : strict_eq a (Int z) = true <-> a = Int z.
Proof.
  destruct a as [x|]; simpl.
  - rewrite Z.eqb_eq. split; [now intros -> | now intros [= ->]].
  - split; discriminate.
Qed.

Lemma strict_eq_false a z : strict_eq a (Int z) = false <-> a <> Int z.
Proof.
  rewrite <- strict_eq_true. destruct (strict_eq a (Int z)); split; congruence.
Qed.

(** ** Point adjustment *)

Lemma with_total_points_id i t p : p_id (with_total_points i t p) = p_id p.
Proof. unfold with_total_points. now destruct (p_id p =? i). Qed.

Lemma find_with_total_points i t l row :
  find (fun p => p_id p =? i) l = Some row ->
  find (fun p => p_id p =? i) (map (with_total_points i t) l)
  = Some (mkPlayer (p_id row) (p_name row) (p_club row) (p_photo_url row) t).
Proof.
  induction l as [|p l IH]; simpl; [discriminate|].
  rewrite with_total_points_id.
  destruct (p_id p =? i) eqn:E.
  - intros [= <-]. unfold with_total_points. now rewrite E.
  - exact IH.
Qed.

Lemma map_with_total_points_ids i t l :
  map p_id (map (with_total_points i t) l) = map p_id l.
Proof.
  rewrite map_map. apply map_ext. intros p. apply with_total_points_id.
Qed.

Lemma player_eta row :
  mkPlayer (p_id row) (p_name row) (p_club row) (p_photo_url row)
           (p_total_points row) = row.
Proof. now destruct row. Qed.

Lemma getPlayer_updateTotalPoints id newTotal d row :
  getPlayer id d = Some row ->
  getPlayer id (updateTotalPoints newTotal id d)
  = Some (mkPlayer (p_id row) (p_name row) (p_club row) (p_photo_url row) newTotal).
Proof.
  destruct id as [i|]; simpl; [|discriminate].
  apply find_with_total_points.
Qed.

Lemma adjustPoints_found id delta set d row :
  getPlayer id d = Some row ->
  adjustPoints id delta set d
  = (ok_total id (spec_new_total (p_total_points row) (given delta) (given set)),
     updateTotalPoints
       (spec_new_total (p_total_points row) (given delta) (given set)) id d).
Proof.
  intros H. unfold adjustPoints. rewrite H.
  destruct set, delta; reflexivity.
Qed.

(** C8.  A point adjustment on a player that does not exist answers 404 and
    changes nothing.  On an existing player the new total is obtained by
    first replacing the total by [set] when [set] is a number and then adding
    [delta] when [delta] is a number; that total is answered and stored.  In
    particular [{set: 50}] followed by [{delta: 10}] leaves the player at 60. *)
Theorem adjustPoints_set_then_delta (id : number) (delta set : jsval) (d : db) :
  (getPlayer id d = None ->
   adjustPoints id delta set d = (error 404 "Player not found", d)) /\
  (forall row, getPlayer id d = Some row ->
     let newTotal :=
       spec_new_total (p_total_points row) (given delta) (given set) in
     fst (adjustPoints id delta set d) = ok_total id newTotal /\
     option_map p_total_points (getPlayer id (snd (adjustPoints id delta set d)))
     = Some newTotal) /\
  (forall row, getPlayer id d = Some row ->
     let d1 := snd (adjustPoints id JUndefined (JNum 50) d) in
     let r2 := adjustPoints id (JNum 10) JUndefined d1 in
     fst r2 = ok_total id 60 /\
     option_map p_total_points (getPlayer id (snd r2)) = Some 60).
Proof.
  repeat split.
  - intros H. unfold adjustPoints. now rewrite H.
  - now rewrite (adjustPoints_found _ _ _ _ _ H).
  - rewrite (adjustPoints_found _ _ _ _ _ H). simpl snd.
    now rewrite (getPlayer_updateTotalPoints _ _ _ _ H).
  - rewrite (adjustPoints_found _ _ _ _ _ H). simpl snd.
    pose proof (getPlayer_updateTotalPoints id 50 d row H) as H1.
    simpl in H1 |- *.
    now rewrite (adjustPoints_found _ _ _ _ _ H1).
  - rewrite (adjustPoints_found _ _ _ _ _ H). simpl snd.
    pose proof (getPlayer_updateTotalPoints id 50 d row H) as H1.
    simpl in H1 |- *.
    rewrite (adjustPoints_found _ _ _ _ _ H1). simpl snd.
    now rewrite (getPlayer_updateTotalPoints _ _ _ _ H1).
Qed.

Lemma adjustPoints_set_then_delta_witness :
  let d := init_db "2025-05-11" in
  getPlayer (Int 2) d = Some (mkPlayer 2 "Pedri" "FC Barcelona" EmptyString 0) /\
  getPlayer (Int 9) d = None /\
  adjustPoints (Int 9) (JNum 1) JUndefined d = (error 404 "Player not found", d) /\
  fst (adjustPoints (Int 2) (JNum 10) (JNum 50) d) = ok_total (Int 2) 60 /\
  fst (adjustPoints (Int 2) (JNum 10) JUndefined
         (snd (adjustPoints (Int 2) JUndefined (JNum 50) d)))
  = ok_total (Int 2) 60.
Proof.
  intros d.
  split; [reflexivity|]. split; [reflexivity|]. split; [|split].
  - apply (proj1 (adjustPoints_set_then_delta (Int 9) (JNum 1) JUndefined d)).
    reflexivity.
  - apply (proj1 (proj2 (adjustPoints_set_then_delta (Int 2) (JNum 10) (JNum 50) d))
             (mkPlayer 2 "Pedri" "FC Barcelona" EmptyString 0)).
    reflexivity.
  - apply (proj2 (proj2 (adjustPoints_set_then_delta (Int 2) JUndefined JUndefined d))
             (mkPlayer 2 "Pedri" "FC Barcelona" EmptyString 0)).
    reflexivity.
Defined.

(** ** Keys *)

Section Distinct.

Context {A : Type} (eqb : A -> A -> bool).
Hypothesis eqb_spec : forall x y, eqb x y = true <-> x = y.

Lemma existsb_eqb_In x l : existsb (eqb x) l = true <-> In x l.
Proof.
  rewrite existsb_exists. split.
  - intros (y & Hy & E). apply eqb_spec in E. now subst.
  - intros H. exists x. split; [exact H | now apply eqb_spec].
Qed.

Lemma distinct_NoDup l : distinct eqb l = true <-> NoDup l.
Proof.
  induction l as [|x l IH]; simpl.
  - split; [constructor | reflexivity].
  - rewrite andb_true_iff, negb_true_iff, IH. split.
    + intros [H1 H2]. constructor; [|exact H2].
      intros Hin. apply existsb_eqb_In in Hin. congruence.
    + intros H. inversion H as [|? ? Hx Hl]; subst. split; [|exact Hl].
      destruct (existsb (eqb x) l) eqn:E; [|reflexivity].
      apply existsb_eqb_In in E. contradiction.
Qed.

End Distinct.

Lemma alloc_key_eqb_spec x y : alloc_key_eqb x y = true <-> x = y.
Proof.
  destruct x as [a b], y as [a' b']. unfold alloc_key_eqb. simpl.
  rewrite andb_true_iff, !Z.eqb_eq. split; [intros [-> ->] | intros [= -> ->]]; auto.
Qed.

Lemma vote_key_eqb_spec x y : vote_key_eqb x y = true <-> x = y.
Proof.
  destruct x as [a b], y as [a' b']. unfold vote_key_eqb. simpl.
  rewrite andb_true_iff, Z.eqb_eq, String.eqb_eq.
  split; [intros [-> ->] | intros [= -> ->]]; auto.
Qed.

Lemma well_formed_wf d : well_formed d = true <-> wf d.
Proof.
  unfold well_formed. rewrite !andb_true_iff.
  rewrite !(distinct_NoDup Z.eqb Z.eqb_eq).
  rewrite (distinct_NoDup String.eqb String.eqb_eq).
  rewrite (distinct_NoDup alloc_key_eqb alloc_key_eqb_spec).
  rewrite (distinct_NoDup vote_key_eqb vote_key_eqb_spec).
  split.
  - intros [[[[H1 H2] H3] H4] H5]. now constructor.
  - intros [H1 H2 H3 H4 H5]. auto.
Qed.

Lemma set_players_same d : set_players d (players d) = d.
Proof. now destruct d. Qed.

Lemma with_total_points_absent i t l :
  ~ In i (map p_id l) -> map (with_total_points i t) l = l.
Proof.
  induction l as [|p l IH]; simpl; [reflexivity|].
  intros H. rewrite IH by tauto. unfold with_total_points.
  destruct (Z.eqb_spec (p_id p) i); [|reflexivity].
  elim H. now left.
Qed.

Lemma with_total_points_same i l row :
  NoDup (map p_id l) ->
  find (fun p => p_id p =? i) l = Some row ->
  map (with_total_points i (p_total_points row)) l = l.
Proof.
  induction l as [|p l IH]; simpl; [discriminate|].
  intros Hnd. inversion Hnd as [|? ? Hp Hl]; subst.
  unfold with_total_points at 1.
  destruct (Z.eqb_spec (p_id p) i) as [E|E].
  - intros [= <-]. rewrite player_eta. f_equal.
    apply with_total_points_absent. now rewrite <- E.
  - intros H. f_equal. now apply IH.
Qed.

(** C10.  When neither [set] nor [delta] is a number (absent, null, a
    boolean, a string, ...), a point adjustment on an existing player
    succeeds, answers the player's existing total and leaves the player row,
    and with it the whole database, as it was. *)
Theorem adjustPoints_without_numbers (id : number) (delta set : jsval)
  (d : db) (row : player_row) :
  getPlayer id d = Some row ->
  typeof set <> TNumber ->
  typeof delta <> TNumber ->
  fst (adjustPoints id delta set d) = ok_total id (p_total_points row) /\
  getPlayer id (snd (adjustPoints id delta set d)) = Some row /\
  (well_formed d = true -> snd (adjustPoints id delta set d) = d).
Proof.
  intros Hrow Hset Hdelta.
  rewrite (adjustPoints_found _ _ _ _ _ Hrow).
  rewrite (given_not_number _ Hset), (given_not_number _ Hdelta). simpl.
  split; [reflexivity|]. split.
  - rewrite (getPlayer_updateTotalPoints _ _ _ _ Hrow). now rewrite player_eta.
  - intros Hwf. apply well_formed_wf in Hwf.
    destruct id as [i|]; simpl in *; [|reflexivity].
    rewrite (with_total_points_same i _ row (wf_player_ids _ Hwf) Hrow).
    apply set_players_same.
Qed.

Lemma adjustPoints_without_numbers_witness :
  let d := snd (adjustPoints (Int 3) JUndefined (JNum 7) (init_db "2025-05-11")) in
  adjustPoints (Int 3) (JStr "10") (JStr "50") d = (ok_total (Int 3) 7, d).
Proof.
  intros d.
  pose proof (adjustPoints_without_numbers (Int 3) (JStr "10") (JStr "50") d
                (mkPlayer 3 "Gavi" "FC Barcelona" EmptyString 7)
                eq_refl
                ltac:(discriminate) ltac:(discriminate)) as (H1 & _ & H3).
  rewrite (surjective_pairing (adjustPoints _ _ _ d)).
  rewrite H1, (H3 eq_refl). reflexivity.
Defined.

(** ** Allocation submissions: validation and rollback *)

Lemma transaction_throw {A} (fn : M A) d e d' :
  fn d = (Throw e, d') -> transaction fn d = (Throw e, d).
Proof. intros H. unfold transaction. now rewrite H. Qed.

Lemma transaction_return {A} (fn : M A) d a d' :
  fn d = (Return a, d') -> transaction fn d = (Return a, d').
Proof. intros H. unfold transaction. now rewrite H. Qed.

Lemma bind_throw {A B} (m : M A) (k : A -> M B) d e d' :
  m d = (Throw e, d') -> bind m k d = (Throw e, d').
Proof. intros H. unfold bind. now rewrite H. Qed.

Lemma bind_return {A B} (m : M A) (k : A -> M B) d a d' :
  m d = (Return a, d') -> bind m k d = k a d'.
Proof. intros H. unfold bind. now rewrite H. Qed.

Lemma throws_bind_left {A B} (m : M A) (k : A -> M B) d :
  throws m d -> throws (bind m k) d.
Proof.
  intros (e & d' & H). exists e, d'. now apply bind_throw.
Qed.

Lemma throws_bind_right {A B} (m : M A) (k : A -> M B) d :
  (forall a d', m d = (Return a, d') -> throws (k a) d') -> throws (bind m k) d.
Proof.
  intros H. unfold throws, bind in *.
  destruct (m d) as [[a|e] d'] eqn:E.
  - now apply H.
  - now exists e, d'.
Qed.

Lemma upsertEntries_lacking user_id entries d :
  lacks_player_id entries = true -> throws (upsertEntries user_id entries) d.
Proof.
  unfold lacks_player_id.
  revert d. induction entries as [|a rest IH]; simpl; intros d H; [discriminate|].
  destruct (negb (truthy (player_id a))) eqn:E; simpl in H.
  - now exists (JsError "player_id missing"), d.
  - apply throws_bind_right. intros _ d' _. now apply IH.
Qed.

Lemma tx_lacking name email entries d :
  lacks_player_id entries = true ->
  exists e, tx name email entries d = (Throw e, d).
Proof.
  intros H. unfold tx.
  assert (Hthrows : throws (user <- resolveUser name email ;;
                            upsertEntries (u_id user) entries ;;; ret user) d).
  { apply throws_bind_right. intros u d' _.
    apply throws_bind_left. now apply upsertEntries_lacking. }
  destruct Hthrows as (e & d' & Hbody).
  exists e. now apply transaction_throw with d'.
Qed.

Lemma tx_throw_rolls_back name email entries d e d' :
  tx name email entries d = (Throw e, d') -> d' = d.
Proof.
  unfold tx, transaction.
  match goal with |- context [bind ?m ?k d] => destruct (bind m k d) as [[u|e0] d0] end;
    now intros [= ].
Qed.

Lemma submitAllocations_off_total name email entries d :
  missing name = false -> missing email = false ->
  total entries <> Int 100 ->
  submitAllocations name email (Some entries) d
  = (error 400 "Total allocated points must equal 100", d).
Proof.
  intros Hn He Ht. unfold submitAllocations. rewrite Hn, He. simpl.
  apply strict_eq_false in Ht. now rewrite Ht.
Qed.

Lemma Number_or_zero a :
  Number (js_or (points_allocated a) (FNum 0)) = Int (points_value a).
Proof.
  unfold js_or, points_value.
  destruct (points_allocated a) as [| |[|]|x]; simpl; try reflexivity.
  destruct (Z.eqb_spec x 0); simpl; congruence.
Qed.

Lemma total_from z entries :
  fold_left (fun s a => js_add s (Number (js_or (points_allocated a) (FNum 0))))
            entries (Int z)
  = Int (z + fold_right (fun a s => points_value a + s) 0 entries).
Proof.
  revert z. induction entries as [|a rest IH]; intros z; simpl.
  - f_equal. lia.
  - rewrite Number_or_zero. simpl. rewrite IH. f_equal. lia.
Qed.

(** In this model the handler's total is always a number: the sum of what
    the entries contribute. *)
Lemma total_points_value entries :
  total entries = Int (fold_right (fun a s => points_value a + s) 0 entries).
Proof. unfold total. now rewrite total_from. Qed.

(** Where no point value is the boolean [true], the total the handler
    computes is the total of the specification. *)
Lemma total_spec_total entries :
  forallb (fun a => match points_allocated a with FBool true => false | _ => true end)
          entries = true ->
  total entries = Int (spec_total entries).
Proof.
  rewrite total_points_value. intros H. f_equal.
  induction entries as [|a rest IH]; simpl in *; [reflexivity|].
  apply andb_true_iff in H as [Ha Hrest]. rewrite (IH Hrest).
  unfold points_value. destruct (points_allocated a) as [| |[|]|x]; try reflexivity.
  discriminate.
Qed.

(** What the handler answers to point values 99 and [true]: it counts
    [true] as 1, accepts the total, and fails inside the transaction. *)
Example off_total_run :
  submitAllocations (Some "Culer") (Some "culer@example.com")
    (Some [mkEntry (FNum 1) (FNum 99); mkEntry (FNum 2) (FBool true)])
    (init_db "2025-05-11")
  = (error 500 "Allocation failed", init_db "2025-05-11").
Proof. reflexivity. Qed.

(** C1, as the specification words it, fails: with point values 99 and
    [true] the specified total is 99, not 100, yet the answer is the generic
    500 and not a validation error. *)
Lemma off_total_counterexample :
  ~ rejects_off_total_as_specified
      (Some "Culer") (Some "culer@example.com")
      [mkEntry (FNum 1) (FNum 99); mkEntry (FNum 2) (FBool true)]
      (init_db "2025-05-11").
Proof.
  unfold rejects_off_total_as_specified. intros H.
  destruct H as [[msg Hmsg] _]; [simpl; lia|].
  vm_compute in Hmsg. discriminate Hmsg.
Qed.

(** C1, with the handler's total.  A submission whose total, summed as the
    handler sums it ([Number(points_allocated || 0)]: undefined, null, false
    and 0 count 0, true counts 1, a number counts itself), is not exactly 100
    is rejected with a validation error and the database is left as it was;
    when name and email are present the error is the one about the total. *)
Theorem submitAllocations_total_not_100 (name email : option string)
  (entries : list entry) (d : db) :
  total entries <> Int 100 ->
  ValidationError (fst (submitAllocations name email (Some entries) d)) /\
  snd (submitAllocations name email (Some entries) d) = d /\
  (missing name = false -> missing email = false ->
   fst (submitAllocations name email (Some entries) d)
   = error 400 "Total allocated points must equal 100").
Proof.
  intros Ht.
  destruct (missing name) eqn:Hn; [|destruct (missing email) eqn:He].
  - unfold submitAllocations. rewrite Hn. simpl.
    repeat split; [now eexists | discriminate].
  - unfold submitAllocations. rewrite Hn, He. simpl.
    repeat split; [now eexists | discriminate].
  - rewrite (submitAllocations_off_total _ _ _ _ Hn He Ht). simpl.
    repeat split. now eexists.
Qed.

Lemma submitAllocations_total_not_100_witness :
  let d := init_db "2025-05-11" in
  submitAllocations (Some "Culer") (Some "culer@example.com")
    (Some [mkEntry (FNum 1) (FNum 60); mkEntry (FNum 2) (FNum 30)]) d
  = (error 400 "Total allocated points must equal 100", d).
Proof.
  intros d.
  pose proof (submitAllocations_total_not_100
                (Some "Culer") (Some "culer@example.com")
                [mkEntry (FNum 1) (FNum 60); mkEntry (FNum 2) (FNum 30)] d
                ltac:(discriminate)) as (_ & H2 & H3).
  rewrite (surjective_pairing (submitAllocations _ _ _ d)).
  rewrite H2, (H3 eq_refl eq_refl). reflexivity.
Defined.

(** What the handler answers to a single entry worth 100 points without a
    [player_id]: both validations pass, the loop throws inside the
    transaction, the catch answers the generic 500. *)
Example missing_player_id_run :
  submitAllocations (Some "Culer") (Some "culer@example.com")
    (Some [mkEntry FUndefined (FNum 100)])
    (init_db "2025-05-11")
  = (error 500 "Allocation failed", init_db "2025-05-11").
Proof. reflexivity. Qed.

(** C4, as the specification words it, fails: the answer to that submission
    is not a validation error. *)
Lemma missing_player_id_counterexample :
  ~ rejects_missing_player_id_as_specified
      (Some "Culer") (Some "culer@example.com")
      [mkEntry FUndefined (FNum 100)]
      (init_db "2025-05-11").
Proof.
  unfold rejects_missing_player_id_as_specified. intros H.
  destruct (H eq_refl) as [[msg Hmsg] _].
  vm_compute in Hmsg. discriminate Hmsg.
Qed.

(** C4, with the handler's error.  A submission in which some entry has no
    [player_id] is rejected as a whole and nothing of it is applied: the
    database is left as it was.  The rejection is the 400 "name, email,
    allocations[] required" when the name or the email is missing, else the
    400 "Total allocated points must equal 100" when the total is not 100,
    and else the generic 500 "Allocation failed". *)
Theorem submitAllocations_missing_player_id (name email : option string)
  (entries : list entry) (d : db) :
  lacks_player_id entries = true ->
  snd (submitAllocations name email (Some entries) d) = d /\
  (missing name = true \/ missing email = true ->
   fst (submitAllocations name email (Some entries) d)
   = error 400 "name, email, allocations[] required") /\
  (missing name = false -> missing email = false ->
   total entries <> Int 100 ->
   fst (submitAllocations name email (Some entries) d)
   = error 400 "Total allocated points must equal 100") /\
  (missing name = false -> missing email = false -> total entries = Int 100 ->
   fst (submitAllocations name email (Some entries) d)
   = error 500 "Allocation failed").
Proof.
  intros Hlack. unfold submitAllocations.
  destruct (missing name) eqn:Hn; simpl;
    [repeat split; intros; (reflexivity || discriminate)|].
  destruct (missing email) eqn:He; simpl;
    [repeat split; intros; (reflexivity || discriminate)|].
  destruct (strict_eq (total entries) (Int 100)) eqn:Ht; simpl.
  - destruct (tx_lacking (text name) (text email) entries d Hlack) as [e He'].
    rewrite He'. simpl. split; [reflexivity|]. split; [|split].
    + intros [H | H]; discriminate H.
    + intros _ _ Ht'. apply strict_eq_true in Ht. contradiction.
    + reflexivity.
  - split; [reflexivity|]. split; [|split].
    + intros [H | H]; discriminate H.
    + reflexivity.
    + intros _ _ Ht'. apply strict_eq_false in Ht. contradiction.
Qed.

Lemma submitAllocations_missing_player_id_witness :
  let d := init_db "2025-05-11" in
  submitAllocations (Some "Culer") (Some "culer@example.com")
    (Some [mkEntry (FNum 1) (FNum 40); mkEntry FUndefined (FNum 60)]) d
  = (error 500 "Allocation failed", d) /\
  submitAllocations (Some "Culer") (Some "culer@example.com")
    (Some [mkEntry (FNum 1) (FNum 40); mkEntry FUndefined (FNum 50)]) d
  = (error 400 "Total allocated points must equal 100", d) /\
  submitAllocations (Some "Culer") None
    (Some [mkEntry (FNum 1) (FNum 40); mkEntry FUndefined (FNum 60)]) d
  = (error 400 "name, email, allocations[] required", d).
Proof.
  intros d.
  pose proof (submitAllocations_missing_player_id
                (Some "Culer") (Some "culer@example.com")
                [mkEntry (FNum 1) (FNum 40); mkEntry FUndefined (FNum 60)] d
                eq_refl) as (A1 & _ & _ & A4).
  pose proof (submitAllocations_missing_player_id
                (Some "Culer") (Some "culer@example.com")
                [mkEntry (FNum 1) (FNum 40); mkEntry FUndefined (FNum 50)] d
                eq_refl) as (B1 & _ & B3 & _).
  pose proof (submitAllocations_missing_player_id
                (Some "Culer") None
                [mkEntry (FNum 1) (FNum 40); mkEntry FUndefined (FNum 60)] d
                eq_refl) as (E1 & E2 & _).
  split; [|split].
  - rewrite (surjective_pairing (submitAllocations _ _ _ d)).
    rewrite A1, (A4 eq_refl eq_refl eq_refl). reflexivity.
  - rewrite (surjective_pairing (submitAllocations _ _ _ d)).
    rewrite B1, (B3 eq_refl eq_refl); [reflexivity | discriminate].
  - rewrite (surjective_pairing (submitAllocations _ _ _ d)).
    rewrite E1, (E2 (or_intror eq_refl)). reflexivity.
Defined.

(** ** What each statement writes *)

Lemma next_id_bound ids x : In x ids -> x < next_id ids.
Proof.
  unfold next_id. induction ids as [|y ids IH]; cbn [fold_right In]; [tauto|].
  intros [->|H]; [lia|]. specialize (IH H). lia.
Qed.

Lemma next_id_fresh ids : ~ In (next_id ids) ids.
Proof. intros H. apply next_id_bound in H. lia. Qed.

Lemma upsertAllocation_cases user_id p q d o d' :
  upsertAllocation user_id p q d = (o, d') ->
  (exists e, o = Throw e /\ d' = d) \/
  (exists pid pts,
     p = FNum pid /\ q = FNum pts /\ o = Return tt /\
     ((existsb (alloc_conflict user_id pid) (allocations d) = true /\
       d' = set_allocations d (map (with_points user_id pid pts) (allocations d)))
      \/
      (existsb (alloc_conflict user_id pid) (allocations d) = false /\
       d' = set_allocations d
              (allocations d ++
                 [mkAllocation (next_id (map a_id (allocations d))) user_id pid pts])))).
Proof.
  unfold upsertAllocation.
  destruct p as [| |b|pid]; destruct q as [| |b'|pts]; cbn;
    try (intros [= <- <-]; left; eexists; split; reflexivity).
  destruct (pts <? 0);
    [intros [= <- <-]; left; eexists; split; reflexivity|].
  destruct (existsb (alloc_conflict user_id pid) (allocations d)) eqn:E.
  - intros [= <- <-]. right. exists pid, pts. repeat split. now left.
  - destruct (has_user d user_id && has_player d pid).
    + intros [= <- <-]. right. exists pid, pts. repeat split. now right.
    + intros [= <- <-]. left. eexists; split; reflexivity.
Qed.

Lemma upsertVote_cases now match_id p email d o d' :
  upsertVote now match_id p email d = (o, d') ->
  (exists e, o = Throw e /\ d' = d) \/
  (exists pid,
     p = FNum pid /\ o = Return tt /\ has_player d pid = true /\
     ((existsb (vote_conflict match_id email) (potm_votes d) = true /\
       d' = set_potm_votes d
              (map (with_vote match_id email pid now) (potm_votes d)))
      \/
      (existsb (vote_conflict match_id email) (potm_votes d) = false /\
       d' = set_potm_votes d
              (potm_votes d ++
                 [mkVote (next_id (map v_id (potm_votes d))) match_id pid email now])))).
Proof.
  unfold upsertVote.
  destruct p as [| |b|pid]; cbn;
    try (intros [= <- <-]; left; eexists; split; reflexivity).
  destruct (has_player d pid) eqn:Hp; cbn;
    [|intros [= <- <-]; left; eexists; split; reflexivity].
  destruct (existsb (vote_conflict match_id email) (potm_votes d)) eqn:E.
  - intros [= <- <-]. right. exists pid. repeat (split; [easy|]). now left.
  - destruct (has_match d match_id).
    + intros [= <- <-]. right. exists pid. repeat (split; [easy|]). now right.
    + intros [= <- <-]. left. eexists; split; reflexivity.
Qed.

Lemma resolveUser_cases name email d :
  (exists u,
     find (fun u => String.eqb (u_email u) email) (users d) = Some u /\
     resolveUser name email d = (Return u, d)) \/
  (find (fun u => String.eqb (u_email u) email) (users d) = None /\
   let u := mkUser (next_id (map u_id (users d))) name email in
   resolveUser name email d = (Return u, set_users d (users d ++ [u]))).
Proof.
  unfold resolveUser, bind, getUserByEmail, createUser.
  destruct (find _ (users d)) as [u|] eqn:E.
  - left. exists u. split; reflexivity.
  - right. split; [reflexivity|]. cbn.
    destruct (existsb _ (users d)) eqn:Ex; [|reflexivity].
    apply existsb_exists in Ex as (u & Hin & Hu).
    now rewrite (find_none _ _ E u Hin) in Hu.
Qed.

Lemma keeps_bind {T} (table : db -> T) {A B} (m : M A) (k : A -> M B) :
  keeps table m -> (forall a, keeps table (k a)) -> keeps table (bind m k).
Proof.
  intros Hm Hk d o d'. unfold bind.
  destruct (m d) as [[a|e] d1] eqn:E.
  - intros H. rewrite (Hk a _ _ _ H). eapply Hm; eassumption.
  - intros [= <- <-]. eapply Hm; eassumption.
Qed.

Lemma keeps_ret {T} (table : db -> T) {A} (a : A) : keeps table (ret a).
Proof. intros d o d' [= <- <-]. reflexivity. Qed.

Lemma keeps_throw {T} (table : db -> T) {A} e : keeps table (@throw A e).
Proof. intros d o d' [= <- <-]. reflexivity. Qed.

Lemma keeps_transaction {T} (table : db -> T) {A} (m : M A) :
  keeps table m -> keeps table (transaction m).
Proof.
  intros Hm d o d'. unfold transaction.
  destruct (m d) as [[a|e] d1] eqn:E; intros [= <- <-]; [|reflexivity].
  eapply Hm; eassumption.
Qed.

Lemma upsertAllocation_keeps user_id p q :
  keeps users (upsertAllocation user_id p q) /\
  keeps players (upsertAllocation user_id p q) /\
  keeps matches (upsertAllocation user_id p q) /\
  keeps potm_votes (upsertAllocation user_id p q).
Proof.
  repeat split; intros d o d' H;
    apply upsertAllocation_cases in H
      as [(e & _ & ->)|(pid & pts & _ & _ & _ & [[_ ->]|[_ ->]])]; reflexivity.
Qed.

Lemma upsertEntries_keeps user_id entries :
  keeps users (upsertEntries user_id entries) /\
  keeps players (upsertEntries user_id entries) /\
  keeps matches (upsertEntries user_id entries) /\
  keeps potm_votes (upsertEntries user_id entries).
Proof.
  induction entries as [|a rest (IH1 & IH2 & IH3 & IH4)]; simpl.
  - repeat split; apply keeps_ret.
  - destruct (negb (truthy (player_id a))).
    + repeat split; apply keeps_throw.
    + destruct (upsertAllocation_keeps user_id (player_id a) (points_allocated a))
        as (H1 & H2 & H3 & H4).
      repeat split; apply keeps_bind; auto.
Qed.

Lemma upsertVote_keeps now match_id p email :
  keeps users (upsertVote now match_id p email) /\
  keeps players (upsertVote now match_id p email) /\
  keeps matches (upsertVote now match_id p email) /\
  keeps allocations (upsertVote now match_id p email).
Proof.
  repeat split; intros d o d' H;
    apply upsertVote_cases in H
      as [(e & _ & ->)|(pid & _ & _ & _ & [[_ ->]|[_ ->]])]; reflexivity.
Qed.

Lemma resolveUser_keeps name email :
  keeps players (resolveUser name email) /\
  keeps allocations (resolveUser name email) /\
  keeps matches (resolveUser name email) /\
  keeps potm_votes (resolveUser name email).
Proof.
  repeat split; intros d o d' H;
    destruct (resolveUser_cases name email d) as [(u & _ & E)|[_ E]];
    cbv zeta in E; rewrite E in H; injection H as <- <-; reflexivity.
Qed.

(** ** The uniqueness constraints are invariants *)

Lemma with_points_key user_id pid pts a :
  alloc_key (with_points user_id pid pts a) = alloc_key a.
Proof. unfold with_points. now destruct (alloc_conflict user_id pid a). Qed.

Lemma with_points_id user_id pid pts a :
  a_id (with_points user_id pid pts a) = a_id a.
Proof. unfold with_points. now destruct (alloc_conflict user_id pid a). Qed.

Lemma with_vote_key match_id email pid now v :
  vote_key (with_vote match_id email pid now v) = vote_key v.
Proof. unfold with_vote. now destruct (vote_conflict match_id email v). Qed.

Lemma with_vote_id match_id email pid now v :
  v_id (with_vote match_id email pid now v) = v_id v.
Proof. unfold with_vote. now destruct (vote_conflict match_id email v). Qed.

Lemma alloc_conflict_key user_id pid a :
  alloc_conflict user_id pid a = true <-> alloc_key a = (user_id, pid).
Proof.
  unfold alloc_conflict, alloc_key. rewrite andb_true_iff, !Z.eqb_eq.
  split; [intros [-> ->] | intros [= -> ->]]; auto.
Qed.

Lemma vote_conflict_key match_id email v :
  vote_conflict match_id email v = true <-> vote_key v = (match_id, email).
Proof.
  unfold vote_conflict, vote_key. rewrite andb_true_iff, Z.eqb_eq, String.eqb_eq.
  split; [intros [-> ->] | intros [= -> ->]]; auto.
Qed.

Lemma no_alloc_conflict user_id pid l :
  existsb (alloc_conflict user_id pid) l = false ->
  ~ In (user_id, pid) (map alloc_key l).
Proof.
  intros H Hin. apply in_map_iff in Hin as (a & Ha & Hin).
  apply alloc_conflict_key in Ha.
  assert (E : existsb (alloc_conflict user_id pid) l = true)
    by (apply existsb_exists; eauto).
  congruence.
Qed.

Lemma no_vote_conflict match_id email l :
  existsb (vote_conflict match_id email) l = false ->
  ~ In (match_id, email) (map vote_key l).
Proof.
  intros H Hin. apply in_map_iff in Hin as (v & Hv & Hin).
  apply vote_conflict_key in Hv.
  assert (E : existsb (vote_conflict match_id email) l = true)
    by (apply existsb_exists; eauto).
  congruence.
Qed.

Lemma NoDup_snoc {A} (l : list A) x : NoDup l -> ~ In x l -> NoDup (l ++ [x]).
Proof.
  intros Hl Hx. apply NoDup_app; [exact Hl | repeat constructor; auto |].
  intros y Hy [<-|[]]. contradiction.
Qed.

Lemma upsertAllocation_unique user_id p q d o d' :
  upsertAllocation user_id p q d = (o, d') ->
  NoDup (map alloc_key (allocations d)) ->
  NoDup (map alloc_key (allocations d')).
Proof.
  intros H Hnd.
  apply upsertAllocation_cases in H
    as [(e & _ & ->)|(pid & pts & _ & _ & _ & [[_ ->]|[Hc ->]])]; simpl.
  - exact Hnd.
  - rewrite map_map.
    rewrite (map_ext _ alloc_key (with_points_key user_id pid pts)). exact Hnd.
  - rewrite map_app. simpl. apply NoDup_snoc; [exact Hnd|].
    now apply no_alloc_conflict.
Qed.

Lemma upsertEntries_unique user_id entries d o d' :
  upsertEntries user_id entries d = (o, d') ->
  NoDup (map alloc_key (allocations d)) ->
  NoDup (map alloc_key (allocations d')).
Proof.
  revert d. induction entries as [|a rest IH]; simpl; intros d.
  - now intros [= <- <-].
  - destruct (negb (truthy (player_id a))); [now intros [= <- <-]|].
    unfold bind.
    destruct (upsertAllocation user_id (player_id a) (points_allocated a) d)
      as [[[]|e] d1] eqn:E.
    + intros H Hnd. apply (IH _ H). eapply upsertAllocation_unique; eassumption.
    + intros [= <- <-] Hnd. eapply upsertAllocation_unique; eassumption.
Qed.

Lemma upsertVote_unique now match_id p email d o d' :
  upsertVote now match_id p email d = (o, d') ->
  NoDup (map vote_key (potm_votes d)) ->
  NoDup (map vote_key (potm_votes d')).
Proof.
  intros H Hnd.
  apply upsertVote_cases in H
    as [(e & _ & ->)|(pid & _ & _ & _ & [[_ ->]|[Hc ->]])]; simpl.
  - exact Hnd.
  - rewrite map_map.
    rewrite (map_ext _ vote_key (with_vote_key match_id email pid now)). exact Hnd.
  - rewrite map_app. simpl. apply NoDup_snoc; [exact Hnd|].
    now apply no_vote_conflict.
Qed.

Lemma find_email_none email l :
  find (fun u => String.eqb (u_email u) email) l = None ->
  ~ In email (map u_email l).
Proof.
  intros H Hin. apply in_map_iff in Hin as (u & Hu & Hin).
  pose proof (find_none _ _ H u Hin) as E. simpl in E.
  rewrite Hu, String.eqb_refl in E. discriminate.
Qed.

Lemma resolveUser_unique name email d o d' :
  resolveUser name email d = (o, d') ->
  NoDup (map u_id (users d)) -> NoDup (map u_email (users d)) ->
  NoDup (map u_id (users d')) /\ NoDup (map u_email (users d')).
Proof.
  intros H Hid Hem.
  destruct (resolveUser_cases name email d) as [(u & _ & E)|[Hnone E]];
    cbv zeta in E; rewrite E in H; injection H as <- <-; simpl.
  - now split.
  - rewrite !map_app. simpl. split; apply NoDup_snoc; auto.
    + apply next_id_fresh.
    + now apply find_email_none.
Qed.

Lemma tx_return name email entries d u d' :
  tx name email entries d = (Return u, d') ->
  exists d1,
    resolveUser name email d = (Return u, d1) /\
    upsertEntries (u_id u) entries d1 = (Return tt, d').
Proof.
  unfold tx, transaction, bind.
  destruct (resolveUser name email d) as [[u0|e] d1]; [|discriminate].
  destruct (upsertEntries (u_id u0) entries d1) as [[[]|e] d2] eqn:E;
    [|discriminate].
  cbn. intros [= <- <-]. now exists d1.
Qed.

Lemma submitAllocations_cases name email allocations d :
  (exists status msg,
     submitAllocations name email allocations d = (error status msg, d)) \/
  (exists entries u d',
     allocations = Some entries /\
     missing name = false /\ missing email = false /\
     total entries = Int 100 /\
     tx (text name) (text email) entries d = (Return u, d') /\
     submitAllocations name email allocations d = (ok_user u, d')).
Proof.
  unfold submitAllocations.
  destruct (missing name) eqn:Hn; simpl; [left; now do 2 eexists|].
  destruct (missing email) eqn:He; simpl; [left; now do 2 eexists|].
  destruct allocations as [entries|]; [|left; now do 2 eexists].
  destruct (strict_eq (total entries) (Int 100)) eqn:Ht; simpl;
    [|left; now do 2 eexists].
  destruct (tx (text name) (text email) entries d) as [[u|e] d'] eqn:E.
  - right. exists entries, u, d'. apply strict_eq_true in Ht. auto 10.
  - left. rewrite (tx_throw_rolls_back _ _ _ _ _ _ E). now do 2 eexists.
Qed.

Lemma submitAllocations_wf name email allocations d :
  wf d -> wf (snd (submitAllocations name email allocations d)).
Proof.
  intros [H1 H2 H3 H4 H5].
  destruct (submitAllocations_cases name email allocations d)
    as [(st & msg & ->)|(entries & u & d' & _ & _ & _ & _ & Htx & ->)]; simpl;
    [now constructor|].
  apply tx_return in Htx as (d1 & Hr & Hu).
  destruct (resolveUser_keeps (text name) (text email)) as (K1 & K2 & K3 & K4).
  destruct (upsertEntries_keeps (u_id u) entries) as (L1 & L2 & L3 & L4).
  destruct (resolveUser_unique _ _ _ _ _ Hr H1 H2) as [U1 U2].
  constructor.
  - now rewrite (L1 _ _ _ Hu).
  - now rewrite (L1 _ _ _ Hu).
  - now rewrite (L2 _ _ _ Hu), (K1 _ _ _ Hr).
  - apply (upsertEntries_unique _ _ _ _ _ Hu). now rewrite (K2 _ _ _ Hr).
  - now rewrite (L4 _ _ _ Hu), (K4 _ _ _ Hr).
Qed.

Lemma castVote_cases now match_id name email player_id d :
  (exists status msg,
     castVote now match_id name email player_id d = (error status msg, d)) \/
  (exists mid o d1 d',
     match_id = Int mid /\
     missing name = false /\ missing email = false /\
     truthy player_id = true /\ has_match d mid = true /\
     resolveUser (text name) (text email) d = (Return o, d1) /\
     ((upsertVote now mid player_id (text email) d1 = (Return tt, d') /\
       castVote now match_id name email player_id d = (ok_true, d')) \/
      (exists e,
         upsertVote now mid player_id (text email) d1 = (Throw e, d') /\
         castVote now match_id name email player_id d = (uncaught e, d')))).
Proof.
  unfold castVote.
  destruct (missing name) eqn:Hn; simpl; [left; now do 2 eexists|].
  destruct (missing email) eqn:He; simpl; [left; now do 2 eexists|].
  destruct (truthy player_id) eqn:Hp; simpl; [|left; now do 2 eexists].
  destruct match_id as [mid|]; [|left; now do 2 eexists].
  simpl. destruct (find _ (matches d)) as [m|] eqn:Hm; [|left; now do 2 eexists].
  right.
  assert (Hhas : has_match d mid = true).
  { unfold has_match. apply existsb_exists. exists m.
    apply find_some in Hm. exact Hm. }
  unfold bind.
  destruct (resolveUser_cases (text name) (text email) d)
    as [(u & _ & E)|[_ E]]; cbv zeta in E; rewrite E.
  - destruct (upsertVote now mid player_id (text email) d) as [[[]|e] d'] eqn:V.
    + exists mid, u, d, d'. repeat (split; [easy|]). left. now split.
    + exists mid, u, d, d'. repeat (split; [easy|]). right. exists e. now split.
  - destruct (upsertVote now mid player_id (text email) _) as [[[]|e] d'] eqn:V.
    + do 4 eexists. repeat (split; [easy|]). left. split; [exact V|reflexivity].
    + do 4 eexists. repeat (split; [easy|]). right. exists e.
      split; [exact V|reflexivity].
Qed.

Lemma castVote_wf now match_id name email player_id d :
  wf d -> wf (snd (castVote now match_id name email player_id d)).
Proof.
  intros [H1 H2 H3 H4 H5].
  destruct (castVote_cases now match_id name email player_id d)
    as [(st & msg & ->)
       |(mid & o & d1 & d' & _ & _ & _ & _ & _ & Hr & Hv)]; simpl;
    [now constructor|].
  assert (exists o', upsertVote now mid player_id (text email) d1 = (o', d') /\
                     snd (castVote now match_id name email player_id d) = d')
    as (o' & Hu & ->).
  { destruct Hv as [[V ->]|(e & V & ->)]; eexists; split; eauto. }
  destruct (resolveUser_keeps (text name) (text email)) as (K1 & K2 & K3 & K4).
  destruct (upsertVote_keeps now mid player_id (text email)) as (L1 & L2 & L3 & L4).
  destruct (resolveUser_unique _ _ _ _ _ Hr H1 H2) as [U1 U2].
  constructor.
  - now rewrite (L1 _ _ _ Hu).
  - now rewrite (L1 _ _ _ Hu).
  - now rewrite (L2 _ _ _ Hu), (K1 _ _ _ Hr).
  - now rewrite (L4 _ _ _ Hu), (K2 _ _ _ Hr).
  - apply (upsertVote_unique _ _ _ _ _ _ _ Hu). now rewrite (K4 _ _ _ Hr).
Qed.

Lemma createPlayer_wf name club photo_url d :
  wf d -> wf (snd (createPlayer name club photo_url d)).
Proof.
  intros [H1 H2 H3 H4 H5]. unfold createPlayer.
  destruct (missing name); simpl; constructor; simpl; auto.
  rewrite map_app. simpl. apply NoDup_snoc; [exact H3 | apply next_id_fresh].
Qed.

Lemma adjustPoints_wf id delta set d :
  wf d -> wf (snd (adjustPoints id delta set d)).
Proof.
  intros [H1 H2 H3 H4 H5]. unfold adjustPoints.
  destruct (getPlayer id d); simpl; [|now constructor].
  destruct id as [i|]; simpl; constructor; simpl; auto.
  now rewrite map_with_total_points_ids.
Qed.

Lemma createMatch_wf date opponent home_away status d :
  wf d -> wf (snd (createMatch date opponent home_away status d)).
Proof.
  intros [H1 H2 H3 H4 H5]. unfold createMatch.
  destruct (missing date || missing opponent); simpl; [now constructor|].
  destruct (bind_text (or_default "HOME" home_away)) as [h|];
    destruct (bind_text (or_default "final" status)) as [s|];
    try destruct (home_away_check h); simpl; now constructor.
Qed.

Lemma handle_wf r d : wf d -> wf (snd (handle r d)).
Proof.
  destruct r; simpl.
  - apply createPlayer_wf.
  - apply adjustPoints_wf.
  - apply submitAllocations_wf.
  - apply createMatch_wf.
  - apply castVote_wf.
Qed.

Lemma run_wf rs d : wf d -> wf (run rs d).
Proof.
  unfold run. revert d. induction rs as [|r rs IH]; simpl; intros d H.
  - exact H.
  - apply IH. now apply handle_wf.
Qed.

Lemma init_db_wf today : wf (init_db today).
Proof. apply well_formed_wf. reflexivity. Qed.

(** Every database the server can reach satisfies the constraints. *)
Lemma reachable_wf today rs : wf (run rs (init_db today)).
Proof. apply run_wf, init_db_wf. Qed.

(** ** Identity resolution *)

(** C9.  When the email already has a user row, identity resolution returns
    that stored row and writes nothing, whatever name the request carries:
    after an allocation submission or a vote with that email the users table,
    and so the stored name, is what it was, and a successful submission
    answers the stored user. *)
Theorem existing_user_is_returned_unchanged (email : string) (d : db)
  (u : user_row) :
  getUserByEmail email d = (Return (Some u), d) ->
  (forall name, resolveUser name email d = (Return u, d)) /\
  (forall name allocations,
     users (snd (submitAllocations name (Some email) allocations d)) = users d /\
     (forall u',
        fst (submitAllocations name (Some email) allocations d) = ok_user u' ->
        u' = u)) /\
  (forall now match_id name player_id,
     users (snd (castVote now match_id name (Some email) player_id d)) = users d).
Proof.
  intros Hget. unfold getUserByEmail in Hget. injection Hget as Hfind.
  assert (Hres : forall name, resolveUser name email d = (Return u, d)).
  { intros name.
    destruct (resolveUser_cases name email d) as [(u0 & F & E)|[F _]];
      congruence. }
  split; [exact Hres|]. split.
  - intros name allocations.
    destruct (submitAllocations_cases name (Some email) allocations d)
      as [(st & msg & ->)|(entries & u0 & d' & _ & _ & _ & _ & Htx & ->)]; simpl.
    + split; [reflexivity | discriminate].
    + apply tx_return in Htx as (d1 & Hr & Hu). simpl in Hr.
      rewrite Hres in Hr. injection Hr as <- <-.
      destruct (upsertEntries_keeps (u_id u) entries) as (L1 & _).
      split; [exact (L1 _ _ _ Hu) | now intros u' [= <-]].
  - intros now match_id name player_id.
    destruct (castVote_cases now match_id name (Some email) player_id d)
      as [(st & msg & ->)
         |(mid & o & d1 & d' & _ & _ & _ & _ & _ & Hr & Hv)]; simpl;
      [reflexivity|].
    simpl in Hr. rewrite Hres in Hr. injection Hr as <- <-.
    destruct (upsertVote_keeps now mid player_id email) as (L1 & _).
    destruct Hv as [[V ->]|(e & V & ->)]; simpl in *; exact (L1 _ _ _ V).
Qed.

Lemma existing_user_is_returned_unchanged_witness :
  let d := snd (castVote "2025-05-11 21:00:00" (Int 1) (Some "Joan")
                  (Some "joan@example.com") (FNum 2) (init_db "2025-05-11")) in
  let r := submitAllocations (Some "Somebody Else") (Some "joan@example.com")
             (Some [mkEntry (FNum 1) (FNum 100)]) d in
  fst r = ok_user (mkUser 1 "Joan" "joan@example.com") /\
  users (snd r) = [mkUser 1 "Joan" "joan@example.com"].
Proof.
  intros d r.
  pose proof (existing_user_is_returned_unchanged "joan@example.com" d
                (mkUser 1 "Joan" "joan@example.com") eq_refl) as (_ & H & _).
  destruct (H (Some "Somebody Else") (Some [mkEntry (FNum 1) (FNum 100)]))
    as [H1 H2].
  split.
  - reflexivity.
  - exact H1.
Defined.

(** ** ORDER BY and LIMIT *)

Section OrderBy.

Context {A : Type} (leb : A -> A -> bool).

Lemma insert_by_perm x l : Permutation (insert_by leb x l) (x :: l).
Proof.
  induction l as [|y l IH]; simpl; [reflexivity|].
  destruct (leb x y); [reflexivity|].
  rewrite IH. apply perm_swap.
Qed.

Lemma order_by_perm l : Permutation (order_by leb l) l.
Proof.
  induction l as [|x l IH]; simpl; [reflexivity|].
  rewrite insert_by_perm. now constructor.
Qed.

Hypothesis leb_total : forall x y, leb x y = true \/ leb y x = true.
Hypothesis leb_trans :
  forall x y z, leb x y = true -> leb y z = true -> leb x z = true.

Lemma insert_by_sorted x l :
  StronglySorted (fun a b => leb a b = true) l ->
  StronglySorted (fun a b => leb a b = true) (insert_by leb x l).
Proof.
  induction l as [|y l IH]; simpl; intros Hs.
  - repeat constructor.
  - inversion Hs as [|? ? Hl Hy]; subst.
    destruct (leb x y) eqn:E.
    + constructor; [exact Hs|]. constructor; [exact E|].
      eapply Forall_impl; [|exact Hy]. intros z Hz. now apply leb_trans with y.
    + constructor; [now apply IH|].
      apply (Permutation_Forall (Permutation_sym (insert_by_perm x l))).
      constructor; [|exact Hy].
      destruct (leb_total x y) as [H|H]; [congruence | exact H].
Qed.

Lemma order_by_sorted l :
  StronglySorted (fun a b => leb a b = true) (order_by leb l).
Proof.
  induction l as [|x l IH]; simpl; [constructor|].
  now apply insert_by_sorted.
Qed.

End OrderBy.

Lemma StronglySorted_firstn {A} (R : A -> A -> Prop) n l :
  StronglySorted R l -> StronglySorted R (firstn n l).
Proof.
  revert l. induction n as [|n IH]; intros l Hs; simpl; [constructor|].
  destruct l as [|x l]; [constructor|].
  inversion Hs as [|? ? Hl Hx]; subst.
  constructor; [now apply IH|].
  rewrite Forall_forall in *. intros y Hy. apply Hx.
  rewrite <- (firstn_skipn n l). apply in_or_app. now left.
Qed.

Lemma StronglySorted_impl {A} (R S : A -> A -> Prop) l :
  (forall x y, R x y -> S x y) -> StronglySorted R l -> StronglySorted S l.
Proof.
  intros H. induction 1 as [|x l Hl IH Hx]; constructor; [exact IH|].
  eapply Forall_impl; [|exact Hx]. auto.
Qed.

Lemma leaderboard_leb_order x y :
  leaderboard_leb x y = true <-> leaderboard_order x y.
Proof.
  unfold leaderboard_leb, leaderboard_order.
  destruct (Qcompare_spec (lb_portfolio_points y) (lb_portfolio_points x))
    as [E|L|G].
  - rewrite Z.leb_le. split.
    + intros H. right. split; [now symmetry | exact H].
    + intros [L|[_ H]]; [|exact H]. rewrite E in L. now apply Qlt_irrefl in L.
  - split; [now left | reflexivity].
  - split; [discriminate|].
    intros [L|[E _]].
    + exfalso. apply (Qlt_irrefl (lb_portfolio_points x)).
      now apply Qlt_trans with (lb_portfolio_points y).
    + rewrite E in G. now apply Qlt_irrefl in G.
Qed.

Lemma leaderboard_leb_total x y :
  leaderboard_leb x y = true \/ leaderboard_leb y x = true.
Proof.
  rewrite !leaderboard_leb_order. unfold leaderboard_order.
  destruct (Q_dec (lb_portfolio_points x) (lb_portfolio_points y)) as [[L|G]|E].
  - right. now left.
  - left. now left.
  - destruct (Z.le_ge_cases (lb_id x) (lb_id y)).
    + left. right. now split.
    + right. right. split; [now symmetry | assumption].
Qed.

Lemma leaderboard_leb_trans x y z :
  leaderboard_leb x y = true -> leaderboard_leb y z = true ->
  leaderboard_leb x z = true.
Proof.
  rewrite !leaderboard_leb_order. unfold leaderboard_order.
  intros [L1|[E1 I1]] [L2|[E2 I2]].
  - left. now apply Qlt_trans with (lb_portfolio_points y).
  - left. now rewrite <- E2.
  - left. now rewrite E1.
  - right. split; [now rewrite E1 | lia].
Qed.

(** C7.  The leaderboard is in descending order of portfolio_points, rows
    with equal points are in ascending order of user id, and it has at most
    100 rows. *)
Theorem leaderboard_sorted_and_limited (d : db) :
  StronglySorted leaderboard_order (leaderboard d) /\
  (List.length (leaderboard d) <= 100)%nat.
Proof.
  split.
  - unfold leaderboard. apply StronglySorted_firstn. unfold leaderboard_all.
    eapply StronglySorted_impl; [apply leaderboard_leb_order|].
    apply order_by_sorted.
    + apply leaderboard_leb_total.
    + apply leaderboard_leb_trans.
  - unfold leaderboard. apply firstn_le_length.
Qed.

(** ** LEFT JOIN and GROUP BY *)

Lemma flat_map_flat_map {A B C} (g : B -> list C) (h : A -> list B) l :
  flat_map g (flat_map h l) = flat_map (fun x => flat_map g (h x)) l.
Proof.
  induction l as [|x l IH]; simpl; [reflexivity|].
  now rewrite flat_map_app, IH.
Qed.

Lemma existsb_Zeqb_In k seen : existsb (Z.eqb k) seen = true <-> In k seen.
Proof. apply existsb_eqb_In. apply Z.eqb_eq. Qed.

Lemma group_keys_seen seen ks rest :
  (forall k, In k ks -> In k seen) ->
  group_keys seen (ks ++ rest) = group_keys seen rest.
Proof.
  induction ks as [|k ks IH]; simpl; intros H; [reflexivity|].
  assert (E : existsb (Z.eqb k) seen = true) by (apply existsb_Zeqb_In; auto).
  rewrite E. apply IH. auto.
Qed.

Section GroupBy.

Context {U A : Type} (f : U -> list A) (ukey : U -> Z) (key : A -> Z).
Hypothesis f_key : forall u a, In a (f u) -> key a = ukey u.
Hypothesis f_nonempty : forall u, f u <> [].

Lemma group_keys_flat_map us seen :
  NoDup (map ukey us) ->
  (forall u, In u us -> ~ In (ukey u) seen) ->
  group_keys seen (map key (flat_map f us)) = map ukey us.
Proof.
  revert seen. induction us as [|u us IH]; simpl; intros seen Hnd Hseen;
    [reflexivity|].
  inversion Hnd as [|? ? Hu Hus]; subst.
  rewrite map_app.
  destruct (f u) as [|a rest] eqn:E; [now elim (f_nonempty u)|].
  assert (Ha : key a = ukey u) by (apply f_key; rewrite E; now left).
  simpl. rewrite Ha.
  destruct (existsb (Z.eqb (ukey u)) seen) eqn:Ex.
  - apply existsb_Zeqb_In in Ex. elim (Hseen u); auto.
  - f_equal. rewrite group_keys_seen.
    + apply IH; [exact Hus|]. intros u' Hu' [Heq|Hin].
      * apply Hu. rewrite Heq. now apply in_map.
      * apply (Hseen u'); auto.
    + intros k Hk. left. apply in_map_iff in Hk as (b & <- & Hb).
      symmetry. apply f_key. rewrite E. now right.
Qed.

Lemma filter_key_own u :
  filter (fun x => key x =? ukey u) (f u) = f u.
Proof.
  apply forallb_filter_id. apply forallb_forall. intros a Ha.
  apply Z.eqb_eq. now apply f_key.
Qed.

Lemma filter_key_other u k :
  ukey u <> k -> filter (fun x => key x =? k) (f u) = [].
Proof.
  intros Hk.
  assert (H : forall a, In a (f u) -> (key a =? k) = false).
  { intros a Ha. apply Z.eqb_neq. now rewrite (f_key u a Ha). }
  induction (f u) as [|a l IH]; simpl; [reflexivity|].
  rewrite (H a) by now left. apply IH. intros b Hb. apply H. now right.
Qed.

Lemma filter_key_absent us k :
  ~ In k (map ukey us) -> filter (fun x => key x =? k) (flat_map f us) = [].
Proof.
  induction us as [|u us IH]; simpl; intros H; [reflexivity|].
  rewrite filter_app, filter_key_other, IH; tauto.
Qed.

Lemma filter_key_flat_map us u :
  NoDup (map ukey us) -> In u us ->
  filter (fun x => key x =? ukey u) (flat_map f us) = f u.
Proof.
  induction us as [|u0 us IH]; simpl; intros Hnd Hin; [tauto|].
  inversion Hnd as [|? ? Hu Hus]; subst.
  rewrite filter_app.
  destruct Hin as [->|Hin].
  - rewrite filter_key_own. rewrite (filter_key_absent us (ukey u) Hu).
    apply app_nil_r.
  - assert (Hne : ukey u0 <> ukey u).
    { intros E. apply Hu. rewrite E. now apply in_map. }
    rewrite (filter_key_other u0 (ukey u) Hne). simpl. now apply IH.
Qed.

(** Grouping the rows of a join by the key of its left table gives, for
    each left row, the rows joined to it. *)
Lemma group_by_flat_map us :
  NoDup (map ukey us) -> group_by key (flat_map f us) = map f us.
Proof.
  intros Hnd. unfold group_by.
  rewrite group_keys_flat_map by (auto; intros _ _ []).
  rewrite map_map. apply map_ext_in. intros u Hu.
  now apply filter_key_flat_map.
Qed.

End GroupBy.

Lemma flat_map_singleton {A B} (g : A -> B) (sel : A -> list B) l :
  (forall x, In x l -> sel x = [g x]) -> flat_map sel l = map g l.
Proof.
  induction l as [|x l IH]; simpl; intros H; [reflexivity|].
  rewrite H by now left. simpl. f_equal. apply IH. auto.
Qed.

Lemma left_join_joined {A B} (on : A -> B -> bool) l r :
  left_join on l r = flat_map (joined on r) l.
Proof. reflexivity. Qed.

Lemma joined_fst {A B} (on : A -> B -> bool) r a x :
  In x (joined on r a) -> fst x = a.
Proof.
  unfold joined. destruct (filter (on a) r) as [|b bs].
  - now intros [<-|[]].
  - intros H. apply in_map_iff in H as (b' & <- & _). reflexivity.
Qed.

Lemma joined_nonempty {A B} (on : A -> B -> bool) r a : joined on r a <> [].
Proof. unfold joined. now destruct (filter (on a) r). Qed.

Lemma joined_head {A B} (on : A -> B -> bool) r a :
  exists o rest, joined on r a = (a, o) :: rest.
Proof.
  unfold joined. destruct (filter (on a) r) as [|b bs]; simpl; eauto.
Qed.

Lemma sql_count_joined {A B C} (on : A -> B -> bool) (col : B -> C) r a :
  sql_count (map (fun x => option_map col (snd x)) (joined on r a))
  = Z.of_nat (List.length (filter (on a) r)).
Proof.
  unfold joined, sql_count. destruct (filter (on a) r) as [|b bs]; [reflexivity|].
  f_equal. rewrite map_map. simpl.
  rewrite forallb_filter_id; [now rewrite !length_map|].
  apply forallb_forall. intros x Hx.
  apply in_map_iff in Hx as (b' & <- & _). reflexivity.
Qed.

(** ** Match results *)

Lemma results_select_joined match_id d p :
  results_select
    (joined (fun p v =>
               (v_player_id v =? p_id p) &&
               match match_id with Int m => v_match_id v =? m | NaN => false end)
            (potm_votes d) p)
  = [results_row match_id d p].
Proof.
  destruct (joined_head
              (fun p v =>
                 (v_player_id v =? p_id p) &&
                 match match_id with Int m => v_match_id v =? m | NaN => false end)
              (potm_votes d) p) as (o & rest & E).
  unfold results_select. rewrite E, <- E. rewrite sql_count_joined.
  unfold results_row, spec_votes. do 2 f_equal.
  destruct match_id as [m|]; [reflexivity|]. clear E.
  induction (potm_votes d) as [|v l IH]; simpl; [reflexivity|].
  now rewrite andb_false_r.
Qed.

Lemma results_unsorted match_id d :
  NoDup (map p_id (players d)) ->
  results match_id d
  = order_by results_leb (map (results_row match_id d) (players d)).
Proof.
  intros Hnd. unfold results, results_join. f_equal.
  rewrite left_join_joined.
  rewrite (group_by_flat_map _ p_id).
  - rewrite flat_map_concat_map, map_map, <- flat_map_concat_map.
    apply flat_map_singleton. intros p _. apply results_select_joined.
  - intros p x Hx. now rewrite (joined_fst _ _ _ _ Hx).
  - intros p. apply joined_nonempty.
  - exact Hnd.
Qed.

Lemma ascii_compare_refl c : Ascii.compare c c = Eq.
Proof. unfold Ascii.compare. apply N.compare_refl. Qed.

Lemma ascii_compare_lt_trans a b c :
  Ascii.compare a b = Lt -> Ascii.compare b c = Lt -> Ascii.compare a c = Lt.
Proof.
  unfold Ascii.compare. rewrite !N.compare_lt_iff. apply N.lt_trans.
Qed.

Lemma name_le_trans s t u : name_le s t -> name_le t u -> name_le s u.
Proof.
  unfold name_le. revert t u.
  induction s as [|a s IH]; intros [|b t] [|c u]; simpl; try congruence.
  destruct (Ascii.compare a b) eqn:E1; destruct (Ascii.compare b c) eqn:E2;
    try congruence.
  - apply Ascii.compare_eq_iff in E1, E2. subst.
    rewrite ascii_compare_refl. apply IH.
  - apply Ascii.compare_eq_iff in E1. subst. now rewrite E2.
  - apply Ascii.compare_eq_iff in E2. subst. now rewrite E1.
  - now rewrite (ascii_compare_lt_trans _ _ _ E1 E2).
Qed.

Lemma string_leb_name_le s t : String.leb s t = true <-> name_le s t.
Proof.
  unfold String.leb, name_le. destruct (String.compare s t); split; congruence.
Qed.

Lemma results_leb_order x y : results_leb x y = true <-> results_order x y.
Proof.
  unfold results_leb, results_order.
  destruct (Z.compare_spec (r_votes y) (r_votes x)) as [E|L|G].
  - rewrite string_leb_name_le. split; [intros H; right; now split|].
    intros [L|[_ H]]; [lia | exact H].
  - split; [now left | reflexivity].
  - split; [discriminate | intros [L|[E _]]; lia].
Qed.

Lemma results_leb_total x y : results_leb x y = true \/ results_leb y x = true.
Proof.
  unfold results_leb.
  rewrite (Z.compare_antisym (r_votes y) (r_votes x)).
  destruct (r_votes y ?= r_votes x); simpl; auto.
  apply String.leb_total.
Qed.

Lemma results_leb_trans x y z :
  results_leb x y = true -> results_leb y z = true -> results_leb x z = true.
Proof.
  rewrite !results_leb_order. unfold results_order.
  intros [L1|[E1 N1]] [L2|[E2 N2]]; try (left; lia).
  right. split; [lia | now apply name_le_trans with (r_player_name y)].
Qed.

(** C6.  The results of a match hold exactly one row per registered player,
    carrying the player's id and name and the number of votes cast for the
    player in that match (0 when there are none), in descending order of
    votes, rows with equal votes in ascending order of name. *)
Theorem results_one_row_per_player (match_id : number) (d : db) :
  well_formed d = true ->
  Permutation (results match_id d) (map (results_row match_id d) (players d)) /\
  (forall p, In p (players d) -> spec_votes match_id d (p_id p) = 0 ->
             In (mkResultRow (p_id p) (p_name p) 0) (results match_id d)) /\
  StronglySorted results_order (results match_id d).
Proof.
  intros Hwf. apply well_formed_wf in Hwf.
  rewrite (results_unsorted match_id d (wf_player_ids _ Hwf)).
  split; [apply order_by_perm|]. split.
  - intros p Hp H0.
    apply (Permutation_in _ (Permutation_sym (order_by_perm results_leb _))).
    apply in_map_iff. exists p. split; [|exact Hp].
    unfold results_row. now rewrite H0.
  - eapply StronglySorted_impl; [apply results_leb_order|].
    apply order_by_sorted.
    + apply results_leb_total.
    + apply results_leb_trans.
Qed.

Lemma results_one_row_per_player_witness :
  let d := snd (castVote "2025-05-11 21:00:00" (Int 1) (Some "Joan")
                  (Some "joan@example.com") (FNum 2) (init_db "2025-05-11")) in
  Permutation (results (Int 1) d)
    [mkResultRow 1 "Lamine Yamal" 0; mkResultRow 2 "Pedri" 1; mkResultRow 3 "Gavi" 0] /\
  results (Int 1) d
  = [mkResultRow 2 "Pedri" 1; mkResultRow 3 "Gavi" 0; mkResultRow 1 "Lamine Yamal" 0].
Proof.
  intros d. split.
  - exact (proj1 (results_one_row_per_player (Int 1) d eq_refl)).
  - reflexivity.
Defined.

(** ** The leaderboard *)

Lemma sql_sum_from terms acc :
  (coalesce
     (fold_left (fun acc t =>
                   match t with
                   | None => acc
                   | Some q => Some (match acc with None => q | Some s => s + q end)
                   end) terms acc) 0
   == coalesce acc 0 + sum_terms terms)%Q.
Proof.
  revert acc. induction terms as [|t terms IH]; intros acc; simpl.
  - ring.
  - destruct t as [q|]; [|apply IH].
    rewrite IH. destruct acc as [s|]; simpl; ring.
Qed.

Lemma sql_sum_sum_terms terms :
  (coalesce (sql_sum terms) 0 == sum_terms terms)%Q.
Proof. unfold sql_sum. rewrite sql_sum_from. simpl. ring. Qed.

Lemma sum_terms_app l1 l2 :
  (sum_terms (l1 ++ l2) == sum_terms l1 + sum_terms l2)%Q.
Proof.
  induction l1 as [|t l1 IH]; simpl; [ring|].
  destruct t as [q|]; [rewrite IH; ring | exact IH].
Qed.

Lemma filter_find_unique k l :
  NoDup (map p_id l) ->
  filter (fun p => p_id p =? k) l
  = match find (fun p => p_id p =? k) l with Some p => [p] | None => [] end.
Proof.
  induction l as [|p l IH]; simpl; intros Hnd; [reflexivity|].
  inversion Hnd as [|? ? Hp Hl]; subst.
  destruct (Z.eqb_spec (p_id p) k) as [E|E].
  - f_equal. rewrite IH by exact Hl.
    destruct (find _ l) as [p'|] eqn:F; [|reflexivity].
    apply find_some in F as [Hin Hk]. apply Z.eqb_eq in Hk.
    elim Hp. rewrite E, <- Hk. now apply in_map.
  - now apply IH.
Qed.

Lemma filter_none {A} (l : list A) : filter (fun _ => false) l = [].
Proof. induction l; simpl; auto. Qed.

Lemma spec_portfolio_points_terms d user_id :
  (spec_portfolio_points d user_id
   == fold_right (fun a s => spec_term d a + s) 0
        (filter (fun a => a_user_id a =? user_id) (allocations d)))%Q.
Proof.
  unfold spec_portfolio_points, spec_term.
  induction (filter _ (allocations d)) as [|a l IH]; simpl; [reflexivity|].
  destruct (total_points_of d (a_player_id a)); rewrite IH; ring.
Qed.

Lemma allocation_term d u a :
  NoDup (map p_id (players d)) ->
  (sum_terms
     (map portfolio_term
        (joined (fun (ua : user_row * option allocation_row) p =>
                   match snd ua with
                   | Some a => p_id p =? a_player_id a
                   | None => false
                   end)
                (players d) (u, Some a)))
   == spec_term d a)%Q.
Proof.
  intros Hnd. unfold joined, spec_term, total_points_of. simpl.
  rewrite (filter_find_unique (a_player_id a) _ Hnd).
  destruct (find _ (players d)) as [p|]; simpl; [|reflexivity].
  rewrite inject_Z_mult. ring.
Qed.

Lemma user_join_terms d u :
  NoDup (map p_id (players d)) ->
  (sum_terms (map portfolio_term (user_join d u))
   == spec_portfolio_points d (u_id u))%Q.
Proof.
  intros Hnd. rewrite spec_portfolio_points_terms.
  unfold user_join. unfold joined at 2.
  destruct (filter (fun a => a_user_id a =? u_id u) (allocations d))
    as [|a0 l0] eqn:E.
  - simpl. unfold joined. simpl. rewrite filter_none. reflexivity.
  - rewrite <- E. clear E.
    induction (filter (fun a => a_user_id a =? u_id u) (allocations d))
      as [|a l IH]; [reflexivity|].
    cbn [map flat_map fold_right].
    rewrite map_app, sum_terms_app, IH.
    now rewrite (allocation_term d u a Hnd).
Qed.

Lemma user_join_user d u r : In r (user_join d u) -> fst (fst r) = u.
Proof.
  unfold user_join. intros H. apply in_flat_map in H as (ua & Hua & Hr).
  apply joined_fst in Hr. apply joined_fst in Hua. now rewrite Hr.
Qed.

Lemma user_join_head d u :
  exists o p rest, user_join d u = ((u, o), p) :: rest.
Proof.
  unfold user_join.
  destruct (joined_head (fun u a => a_user_id a =? u_id u) (allocations d) u)
    as (o & rest & ->).
  simpl.
  match goal with |- context [joined ?on ?r ?a] =>
    destruct (joined_head on r a) as (p & rest' & ->) end.
  simpl. eauto.
Qed.

Lemma leaderboard_select_user_join d u :
  leaderboard_select (user_join d u) = [user_row_of d u].
Proof.
  destruct (user_join_head d u) as (o & p & rest & E).
  unfold leaderboard_select, user_row_of. rewrite E, <- E. reflexivity.
Qed.

Lemma leaderboard_unsorted d :
  NoDup (map u_id (users d)) ->
  leaderboard_all d = order_by leaderboard_leb (map (user_row_of d) (users d)).
Proof.
  intros Hnd. unfold leaderboard_all, leaderboard_join. f_equal.
  rewrite !left_join_joined, flat_map_flat_map.
  change (flat_map _ (users d)) with (flat_map (user_join d) (users d)).
  rewrite (group_by_flat_map _ u_id).
  - rewrite flat_map_concat_map, map_map, <- flat_map_concat_map.
    apply flat_map_singleton. intros u _. apply leaderboard_select_user_join.
  - intros u r Hr. now rewrite (user_join_user _ _ _ Hr).
  - intros u. destruct (user_join_head d u) as (o & p & rest & ->). discriminate.
  - exact Hnd.
Qed.

Lemma user_row_of_points d u :
  NoDup (map p_id (players d)) ->
  (lb_portfolio_points (user_row_of d u) == spec_portfolio_points d (u_id u))%Q.
Proof.
  intros Hnd. unfold user_row_of. simpl.
  rewrite sql_sum_sum_terms. now apply user_join_terms.
Qed.

Lemma user_row_of_no_allocations d u :
  filter (fun a => a_user_id a =? u_id u) (allocations d) = [] ->
  user_row_of d u = mkLeaderboardRow (u_id u) (u_name u) (u_email u) 0%Q.
Proof.
  intros E. unfold user_row_of, user_join. unfold joined at 2. rewrite E.
  simpl. unfold joined. simpl. now rewrite filter_none.
Qed.

Lemma leaderboard_all_rows d :
  wf d ->
  forall r, In r (leaderboard_all d) <-> In r (map (user_row_of d) (users d)).
Proof.
  intros Hwf r. rewrite (leaderboard_unsorted d (wf_user_ids _ Hwf)).
  split; apply Permutation_in;
    [|apply Permutation_sym]; apply order_by_perm.
Qed.

(** The LIMIT cuts nothing while there are at most 100 users. *)
Lemma leaderboard_all_of_few_users d :
  wf d -> (List.length (users d) <= 100)%nat -> leaderboard d = leaderboard_all d.
Proof.
  intros Hwf Hlen. unfold leaderboard. apply firstn_all2.
  rewrite (leaderboard_unsorted d (wf_user_ids _ Hwf)).
  rewrite (Permutation_length (order_by_perm _ _)). now rewrite length_map.
Qed.

(** X21.  Scores that take no rounding.  Under the key constraints of the
    schema, take a user whose products points_allocated * total_points are
    all multiples of 100 and together stay within the integers a double
    holds exactly.  The leaderboard query has, before its LIMIT, a row with
    the user's id, name and email whose portfolio_points is the sum over the
    user's allocations of points_allocated * total_points / 100; that row is
    on the leaderboard itself while there are at most 100 users; its score
    is 0 when the user has no allocations, and 56 when the user holds 60 on
    a player with 80 points and 40 on a player with 20 points. *)
Theorem leaderboard_exact_scores (d : db) (u : user_row) :
  well_formed d = true -> In u (users d) ->
  rounds_nothing d (u_id u) = true ->
  exists r,
    In r (leaderboard_all d) /\
    ((List.length (users d) <= 100)%nat -> In r (leaderboard d)) /\
    lb_id r = u_id u /\ lb_name r = u_name u /\ lb_email r = u_email u /\
    (lb_portfolio_points r == spec_portfolio_points d (u_id u))%Q /\
    (filter (fun a => a_user_id a =? u_id u) (allocations d) = [] ->
     lb_portfolio_points r = 0%Q) /\
    (forall a b,
       filter (fun a => a_user_id a =? u_id u) (allocations d) = [a; b] ->
       a_points_allocated a = 60 -> total_points_of d (a_player_id a) = Some 80 ->
       a_points_allocated b = 40 -> total_points_of d (a_player_id b) = Some 20 ->
       (lb_portfolio_points r == 56)%Q).
Proof.
  intros Hwf Hu _. apply well_formed_wf in Hwf.
  pose proof (wf_player_ids _ Hwf) as Hp.
  assert (Hall : In (user_row_of d u) (leaderboard_all d)).
  { apply (leaderboard_all_rows d Hwf). now apply in_map. }
  exists (user_row_of d u).
  split; [exact Hall|]. split.
  { intros Hlen. now rewrite (leaderboard_all_of_few_users d Hwf Hlen). }
  split; [reflexivity|]. split; [reflexivity|]. split; [reflexivity|].
  split; [now apply user_row_of_points|]. split.
  - intros E. now rewrite (user_row_of_no_allocations d u E).
  - intros a b E Ha Ta Hb Tb.
    rewrite (user_row_of_points d u Hp).
    unfold spec_portfolio_points. rewrite E. simpl.
    rewrite Ta, Tb, Ha, Hb. reflexivity.
Qed.

Lemma leaderboard_exact_scores_witness :
  let d0 := init_db "2025-05-11" in
  let d1 := snd (adjustPoints (Int 1) JUndefined (JNum 80) d0) in
  let d2 := snd (adjustPoints (Int 2) JUndefined (JNum 20) d1) in
  let d3 := snd (submitAllocations (Some "Joan") (Some "joan@example.com")
                   (Some [mkEntry (FNum 1) (FNum 60); mkEntry (FNum 2) (FNum 40)])
                   d2) in
  exists r,
    In r (leaderboard d3) /\ lb_id r = 1 /\ lb_name r = "Joan" /\
    (lb_portfolio_points r == 56)%Q.
Proof.
  intros d0 d1 d2 d3.
  destruct (leaderboard_exact_scores d3 (mkUser 1 "Joan" "joan@example.com")
              eq_refl (or_introl eq_refl) eq_refl)
    as (r & _ & Hin & Hid & Hname & _ & Hpts & _).
  exists r. split; [apply Hin; simpl; lia|].
  split; [exact Hid|]. split; [exact Hname|].
  rewrite Hpts. reflexivity.
Defined.

(** ** Upserts write in place *)

Section Keyed.

Context {R K : Type} (key : R -> K) (hit : K -> R -> bool).
Hypothesis hit_key : forall k r, hit k r = true <-> key r = k.

Lemma filter_hit_absent k l : existsb (hit k) l = false -> filter (hit k) l = [].
Proof.
  induction l as [|r l IH]; simpl; [reflexivity|].
  rewrite orb_false_iff. intros [-> H]. now apply IH.
Qed.

Lemma not_in_keys_absent k l : ~ In k (map key l) -> existsb (hit k) l = false.
Proof.
  intros H. destruct (existsb (hit k) l) eqn:E; [|reflexivity].
  apply existsb_exists in E as (r & Hr & Hk). apply hit_key in Hk.
  elim H. rewrite <- Hk. now apply in_map.
Qed.

Lemma filter_hit_present k l :
  NoDup (map key l) -> existsb (hit k) l = true ->
  exists r, filter (hit k) l = [r].
Proof.
  induction l as [|r l IH]; simpl; [discriminate|].
  intros Hnd. inversion Hnd as [|? ? Hr Hl]; subst.
  destruct (hit k r) eqn:E; simpl.
  - intros _. exists r. f_equal. apply filter_hit_absent.
    apply not_in_keys_absent. apply hit_key in E. now rewrite <- E.
  - now apply IH.
Qed.

Lemma filter_hit_le1 k l :
  NoDup (map key l) -> (List.length (filter (hit k) l) <= 1)%nat.
Proof.
  intros Hnd. destruct (existsb (hit k) l) eqn:E.
  - destruct (filter_hit_present k l Hnd E) as [r ->]. simpl. lia.
  - rewrite (filter_hit_absent k l E). simpl. lia.
Qed.

Variable f : R -> R.
Hypothesis f_key : forall r, key (f r) = key r.

Lemma hit_update k r : hit k (f r) = hit k r.
Proof.
  destruct (hit k r) eqn:E.
  - apply hit_key. rewrite f_key. now apply hit_key.
  - destruct (hit k (f r)) eqn:E'; [|reflexivity].
    apply hit_key in E'. rewrite f_key in E'. apply hit_key in E'. congruence.
Qed.

Lemma filter_hit_update k l :
  filter (hit k) (map f l) = map f (filter (hit k) l).
Proof.
  induction l as [|r l IH]; simpl; [reflexivity|].
  rewrite hit_update. destruct (hit k r); simpl; now rewrite IH.
Qed.

Lemma filter_hit_update_other k k' l :
  (forall r, key r <> k -> f r = r) -> k' <> k ->
  filter (hit k') (map f l) = filter (hit k') l.
Proof.
  intros Hf Hk. rewrite filter_hit_update.
  rewrite <- (map_id (filter (hit k') l)) at 2.
  apply map_ext_in. intros r Hr. apply filter_In in Hr as [_ Hr].
  apply hit_key in Hr. apply Hf. congruence.
Qed.

End Keyed.

Lemma alloc_hit_key k a : alloc_hit k a = true <-> alloc_key a = k.
Proof. destruct k. apply alloc_conflict_key. Qed.

Lemma vote_hit_key k v : vote_hit k v = true <-> vote_key v = k.
Proof. destruct k. apply vote_conflict_key. Qed.

Lemma with_points_other user_id pid pts a :
  alloc_key a <> (user_id, pid) -> with_points user_id pid pts a = a.
Proof.
  intros H. unfold with_points.
  destruct (alloc_conflict user_id pid a) eqn:E; [|reflexivity].
  apply alloc_conflict_key in E. contradiction.
Qed.

Lemma with_vote_other match_id email pid now v :
  vote_key v <> (match_id, email) -> with_vote match_id email pid now v = v.
Proof.
  intros H. unfold with_vote.
  destruct (vote_conflict match_id email v) eqn:E; [|reflexivity].
  apply vote_conflict_key in E. contradiction.
Qed.

Lemma allocations_of_le1 d user_id pid :
  wf d -> (List.length (allocations_of user_id pid d) <= 1)%nat.
Proof.
  intros Hwf.
  apply (filter_hit_le1 alloc_key alloc_hit alloc_hit_key (user_id, pid)).
  apply (wf_alloc_keys _ Hwf).
Qed.

Lemma votes_of_le1 d match_id email :
  wf d -> (List.length (votes_of match_id email d) <= 1)%nat.
Proof.
  intros Hwf.
  apply (filter_hit_le1 vote_key vote_hit vote_hit_key (match_id, email)).
  apply (wf_vote_keys _ Hwf).
Qed.

(** One successful upsert of an allocation: the pair has exactly one row,
    with the new points and the rowid of the row that was there; the rows of
    every other pair are the same. *)
Lemma upsertAllocation_row user_id p q d d' :
  upsertAllocation user_id p q d = (Return tt, d') ->
  NoDup (map alloc_key (allocations d)) ->
  exists pid pts,
    p = FNum pid /\ q = FNum pts /\
    (exists row,
       allocations_of user_id pid d' = [row] /\
       a_points_allocated row = pts /\
       forall a0, In a0 (allocations_of user_id pid d) -> a_id row = a_id a0) /\
    (forall u' p', (u', p') <> (user_id, pid) ->
       allocations_of u' p' d' = allocations_of u' p' d).
Proof.
  intros H Hnd.
  apply upsertAllocation_cases in H
    as [(e & [=] & _)|(pid & pts & -> & -> & _ & [[Hc ->]|[Hc ->]])];
    exists pid, pts; (split; [reflexivity|]); (split; [reflexivity|]);
    unfold allocations_of; simpl.
  - destruct (filter_hit_present alloc_key alloc_hit alloc_hit_key
                (user_id, pid) _ Hnd Hc) as [a0 Ha0].
    change (filter (alloc_conflict user_id pid) (allocations d) = [a0]) in Ha0.
    split.
    + exists (with_points user_id pid pts a0).
      change (alloc_conflict user_id pid) with (alloc_hit (user_id, pid)).
      rewrite (filter_hit_update alloc_key alloc_hit alloc_hit_key _
                 (with_points_key user_id pid pts)).
      change (alloc_hit (user_id, pid)) with (alloc_conflict user_id pid).
      rewrite Ha0. simpl. split; [reflexivity|].
      assert (Hin : In a0 (filter (alloc_conflict user_id pid) (allocations d)))
        by (rewrite Ha0; now left).
      apply filter_In in Hin as [_ Hhit].
      unfold with_points. rewrite Hhit. simpl. split; [reflexivity|].
      now intros a1 [<-|[]].
    + intros u' p' Hne.
      apply (filter_hit_update_other alloc_key alloc_hit alloc_hit_key _
               (with_points_key user_id pid pts) (user_id, pid) (u', p')).
      * intros a. apply with_points_other.
      * exact Hne.
  - assert (Hnone : filter (alloc_conflict user_id pid) (allocations d) = [])
      by exact (filter_hit_absent alloc_hit (user_id, pid) _ Hc).
    split.
    + eexists. rewrite filter_app, Hnone.
      simpl. unfold alloc_conflict. simpl. rewrite !Z.eqb_refl. simpl.
      split; [reflexivity|]. split; [reflexivity|]. intros a0 [].
    + intros u' p' Hne. rewrite filter_app. simpl.
      destruct (alloc_conflict u' p' _) eqn:E; [|apply app_nil_r].
      apply alloc_conflict_key in E. unfold alloc_key in E. simpl in E.
      congruence.
Qed.

Lemma upsertEntries_rows user_id entries d d' :
  upsertEntries user_id entries d = (Return tt, d') ->
  NoDup (map alloc_key (allocations d)) ->
  forall pid,
    match last_points pid entries with
    | Some q =>
        exists row,
          allocations_of user_id pid d' = [row] /\
          q = FNum (a_points_allocated row) /\
          forall a0, In a0 (allocations_of user_id pid d) -> a_id row = a_id a0
    | None => allocations_of user_id pid d' = allocations_of user_id pid d
    end.
Proof.
  revert d. induction entries as [|a rest IH]; simpl; intros d H Hnd pid.
  - now injection H as <-.
  - destruct (negb (truthy (player_id a))); [discriminate|].
    unfold bind in H.
    destruct (upsertAllocation user_id (player_id a) (points_allocated a) d)
      as [[[]|e] d1] eqn:E; [|discriminate].
    pose proof (upsertAllocation_unique _ _ _ _ _ _ E Hnd) as Hnd1.
    destruct (upsertAllocation_row _ _ _ _ _ E Hnd)
      as (pid0 & pts0 & Hp & Hq & (row1 & Hrow1 & Hpts1 & Hid1) & Hother).
    specialize (IH d1 H Hnd1 pid).
    unfold names. rewrite Hp, Hq.
    destruct (Z.eqb_spec pid0 pid) as [->|Hne].
    + destruct (last_points pid rest) as [q|].
      * destruct IH as (row & Hrow & Hpts & Hid).
        exists row. split; [exact Hrow|]. split; [exact Hpts|].
        intros a0 Ha0. rewrite <- (Hid1 a0 Ha0). apply Hid.
        rewrite Hrow1. now left.
      * exists row1. rewrite IH. split; [exact Hrow1|].
        split; [now rewrite Hpts1 | exact Hid1].
    + assert (Hsame : allocations_of user_id pid d1 = allocations_of user_id pid d).
      { apply Hother. congruence. }
      destruct (last_points pid rest) as [q|].
      * destruct IH as (row & Hrow & Hpts & Hid).
        exists row. split; [exact Hrow|]. split; [exact Hpts|].
        intros a0 Ha0. apply Hid. now rewrite Hsame.
      * now rewrite IH.
Qed.

(** C5.  In every database the server can reach there is at most one
    allocation row per (user, player) pair.  After a successful submission
    each pair it names has exactly one row; that row carries the points of
    the last entry naming the player and keeps the rowid of the row the pair
    had before, if it had one; the rows of the user's other pairs are as they
    were. *)
Theorem allocations_one_row_per_user_player (today : string) (rs : list request) :
  let d := run rs (init_db today) in
  (forall user_id pid, (List.length (allocations_of user_id pid d) <= 1)%nat) /\
  (forall name email entries u d',
     submitAllocations name email (Some entries) d = (ok_user u, d') ->
     forall pid,
       match last_points pid entries with
       | Some q =>
           exists row,
             allocations_of (u_id u) pid d' = [row] /\
             q = FNum (a_points_allocated row) /\
             forall a0, In a0 (allocations_of (u_id u) pid d) ->
                        a_id row = a_id a0
       | None => allocations_of (u_id u) pid d' = allocations_of (u_id u) pid d
       end).
Proof.
  intros d. pose proof (reachable_wf today rs) as Hwf. fold d in Hwf.
  split.
  - intros user_id pid. now apply allocations_of_le1.
  - intros name email entries u d' H pid.
    destruct (submitAllocations_cases name email (Some entries) d)
      as [(st & msg & E)|(entries' & u' & d'' & [= <-] & _ & _ & _ & Htx & E)];
      rewrite E in H; [discriminate|].
    injection H as <- <-.
    apply tx_return in Htx as (d1 & Hr & Hu).
    destruct (resolveUser_keeps (text name) (text email)) as (_ & K2 & _).
    pose proof (K2 _ _ _ Hr) as Hsame.
    assert (Hnd1 : NoDup (map alloc_key (allocations d1)))
      by (rewrite Hsame; apply (wf_alloc_keys _ Hwf)).
    pose proof (upsertEntries_rows _ _ _ _ Hu Hnd1 pid) as Hrows.
    unfold allocations_of in *. now rewrite Hsame in Hrows.
Qed.

Lemma allocations_one_row_per_user_player_witness :
  let d := run [SubmitAllocations (Some "Joan") (Some "joan@example.com")
                  (Some [mkEntry (FNum 1) (FNum 60); mkEntry (FNum 2) (FNum 40)])]
               (init_db "2025-05-11") in
  let d' := snd (submitAllocations (Some "Joan") (Some "joan@example.com")
                   (Some [mkEntry (FNum 1) (FNum 10); mkEntry (FNum 2) (FNum 90)])
                   d) in
  allocations d = [mkAllocation 1 1 1 60; mkAllocation 2 1 2 40] /\
  allocations d' = [mkAllocation 1 1 1 10; mkAllocation 2 1 2 90] /\
  exists row, allocations_of 1 2 d' = [row] /\ a_id row = 2 /\
              a_points_allocated row = 90.
Proof.
  intros d d'.
  split; [reflexivity|]. split; [reflexivity|].
  destruct (allocations_one_row_per_user_player "2025-05-11"
              [SubmitAllocations (Some "Joan") (Some "joan@example.com")
                 (Some [mkEntry (FNum 1) (FNum 60); mkEntry (FNum 2) (FNum 40)])])
    as [_ H].
  specialize (H (Some "Joan") (Some "joan@example.com")
                [mkEntry (FNum 1) (FNum 10); mkEntry (FNum 2) (FNum 90)]
                (mkUser 1 "Joan" "joan@example.com") d' eq_refl 2).
  simpl in H. destruct H as (row & Hrow & Hpts & Hid).
  exists row. split; [exact Hrow|]. split.
  - apply (Hid (mkAllocation 2 1 2 40)). now left.
  - now injection Hpts as <-.
Defined.

(** One successful upsert of a vote: the pair has exactly one row, naming
    the new player and stamped with the current time, with the rowid of the
    row that was there; no row is added when there was one; every row of the
    table has the key of a row that was there or the key just written. *)
Lemma upsertVote_row now match_id p email d d' :
  upsertVote now match_id p email d = (Return tt, d') ->
  NoDup (map vote_key (potm_votes d)) ->
  exists pid,
    p = FNum pid /\
    (exists row,
       votes_of match_id email d' = [row] /\
       v_player_id row = pid /\ v_created_at row = now /\
       forall v0, In v0 (votes_of match_id email d) ->
         v_id row = v_id v0 /\
         List.length (potm_votes d') = List.length (potm_votes d)) /\
    (forall v, In v (potm_votes d') ->
       vote_key v = (match_id, email) \/ In (vote_key v) (map vote_key (potm_votes d))).
Proof.
  intros H Hnd.
  apply upsertVote_cases in H
    as [(e & [=] & _)|(pid & -> & _ & _ & [[Hc ->]|[Hc ->]])];
    exists pid; (split; [reflexivity|]); unfold votes_of; simpl.
  - destruct (filter_hit_present vote_key vote_hit vote_hit_key
                (match_id, email) _ Hnd Hc) as [v0 Hv0].
    change (filter (vote_conflict match_id email) (potm_votes d) = [v0]) in Hv0.
    split.
    + exists (with_vote match_id email pid now v0).
      change (vote_conflict match_id email) with (vote_hit (match_id, email)).
      rewrite (filter_hit_update vote_key vote_hit vote_hit_key _
                 (with_vote_key match_id email pid now)).
      change (vote_hit (match_id, email)) with (vote_conflict match_id email).
      rewrite Hv0. simpl. split; [reflexivity|].
      assert (Hin : In v0 (filter (vote_conflict match_id email) (potm_votes d)))
        by (rewrite Hv0; now left).
      apply filter_In in Hin as [_ Hhit].
      unfold with_vote. rewrite Hhit. simpl.
      split; [reflexivity|]. split; [reflexivity|].
      intros v1 [<-|[]]. split; [reflexivity | apply length_map].
    + intros v Hv. right. apply in_map_iff in Hv as (v1 & <- & Hv1).
      rewrite with_vote_key. now apply in_map.
  - assert (Hnone : filter (vote_conflict match_id email) (potm_votes d) = [])
      by exact (filter_hit_absent vote_hit (match_id, email) _ Hc).
    split.
    + eexists. rewrite filter_app, Hnone.
      simpl. unfold vote_conflict. simpl. rewrite Z.eqb_refl, String.eqb_refl.
      simpl. split; [reflexivity|]. split; [reflexivity|].
      split; [reflexivity|]. intros v0 [].
    + intros v Hv. apply in_app_or in Hv as [Hv|[<-|[]]].
      * right. now apply in_map.
      * now left.
Qed.

Lemma castVote_ok now mid name email player_id d d' :
  castVote now (Int mid) name email player_id d = (ok_true, d') ->
  exists d1,
    potm_votes d1 = potm_votes d /\ players d' = players d /\
    upsertVote now mid player_id (text email) d1 = (Return tt, d').
Proof.
  intros H.
  destruct (castVote_cases now (Int mid) name email player_id d)
    as [(st & msg & E)
       |(mid' & o & d1 & d'' & [= <-] & _ & _ & _ & _ & Hr & Hv)].
  - rewrite E in H. discriminate.
  - destruct Hv as [[V E]|(e & V & E)]; rewrite E in H; [|discriminate].
    injection H as <-. exists d1.
    destruct (resolveUser_keeps (text name) (text email)) as (K1 & _ & _ & K4).
    destruct (upsertVote_keeps now mid player_id (text email)) as (_ & L2 & _).
    split; [exact (K4 _ _ _ Hr)|]. split; [|exact V].
    now rewrite (L2 _ _ _ V), (K1 _ _ _ Hr).
Qed.

(** One successful vote, on a database that satisfies the constraints. *)
Lemma castVote_row now mid name email player_id d d' :
  wf d ->
  castVote now (Int mid) name email player_id d = (ok_true, d') ->
  (exists row,
     votes_of mid (text email) d' = [row] /\
     FNum (v_player_id row) = player_id /\ v_created_at row = now /\
     forall v0, In v0 (votes_of mid (text email) d) ->
       v_id row = v_id v0 /\
       List.length (potm_votes d') = List.length (potm_votes d)) /\
  (forall v, In v (potm_votes d') ->
     vote_key v = (mid, text email) \/ In (vote_key v) (map vote_key (potm_votes d))).
Proof.
  intros Hwf H. apply castVote_ok in H as (d1 & Hsame & _ & V).
  assert (Hnd : NoDup (map vote_key (potm_votes d1)))
    by (rewrite Hsame; apply (wf_vote_keys _ Hwf)).
  destruct (upsertVote_row _ _ _ _ _ _ V Hnd)
    as (pid & -> & (row & Hrow & Hp & Ht & Hid) & Hkeys).
  unfold votes_of in *. rewrite Hsame in *.
  split; [|exact Hkeys].
  exists row. split; [exact Hrow|]. split; [now rewrite Hp|]. split; [exact Ht|].
  exact Hid.
Qed.

Lemma filter_andb {A} (f g : A -> bool) l :
  filter (fun x => f x && g x) l = filter f (filter g l).
Proof.
  induction l as [|x l IH]; simpl; [reflexivity|].
  destruct (g x); simpl; rewrite ?andb_true_r, ?andb_false_r, IH; reflexivity.
Qed.

(** When a match has votes of one email only, the tally of the match is
    read off that email's row. *)
Lemma spec_votes_single mid email d row pid :
  (forall v, In v (potm_votes d) -> v_match_id v = mid -> v_user_email v = email) ->
  votes_of mid email d = [row] ->
  spec_votes (Int mid) d pid = if v_player_id row =? pid then 1 else 0.
Proof.
  intros Honly Hrow. unfold spec_votes. rewrite filter_andb.
  assert (E : filter (fun v => v_match_id v =? mid) (potm_votes d)
              = votes_of mid email d).
  { unfold votes_of. apply filter_ext_in. intros v Hv. unfold vote_conflict.
    destruct (Z.eqb_spec (v_match_id v) mid) as [Hm|Hm]; [|reflexivity].
    rewrite (Honly v Hv Hm), String.eqb_refl. reflexivity. }
  rewrite E, Hrow. simpl. now destruct (v_player_id row =? pid).
Qed.

Lemma castVote_only now mid name email player_id d d' :
  wf d ->
  castVote now (Int mid) name email player_id d = (ok_true, d') ->
  (forall v, In v (potm_votes d) -> v_match_id v = mid ->
             v_user_email v = text email) ->
  (forall v, In v (potm_votes d') -> v_match_id v = mid ->
             v_user_email v = text email).
Proof.
  intros Hwf H Honly v Hv Hm.
  destruct (castVote_row _ _ _ _ _ _ _ Hwf H) as (_ & Hkeys).
  destruct (Hkeys v Hv) as [E|Hin].
  - unfold vote_key in E. now injection E.
  - apply in_map_iff in Hin as (v0 & E & Hv0).
    unfold vote_key in E. injection E as Em Ee.
    rewrite <- Ee. apply Honly; congruence.
Qed.

Lemma in_results match_id d p :
  wf d -> In p (players d) -> In (results_row match_id d p) (results match_id d).
Proof.
  intros Hwf Hp. rewrite (results_unsorted match_id d (wf_player_ids _ Hwf)).
  apply (Permutation_in _ (Permutation_sym (order_by_perm results_leb _))).
  now apply in_map.
Qed.

(** C3.  In every database the server can reach there is at most one vote
    row per (match, email) pair.  After a successful vote the pair has
    exactly one row, naming the player just voted for and stamped with the
    time of the vote; if the pair had a row, it is that row (same rowid) and
    the table has not grown.  So after a vote for A and then a vote for B by
    the same email in a match nobody else has voted in, the results of the
    match count 1 vote for B and 0 for A. *)
Theorem votes_one_row_per_match_email (today : string) (rs : list request) :
  let d := run rs (init_db today) in
  (forall mid email, (List.length (votes_of mid email d) <= 1)%nat) /\
  (forall now mid name email player_id d',
     castVote now (Int mid) name email player_id d = (ok_true, d') ->
     exists row,
       votes_of mid (text email) d' = [row] /\
       FNum (v_player_id row) = player_id /\ v_created_at row = now /\
       forall v0, In v0 (votes_of mid (text email) d) ->
         v_id row = v_id v0 /\
         List.length (potm_votes d') = List.length (potm_votes d)) /\
  (forall now1 now2 mid name email A B d1 d2,
     castVote now1 (Int mid) name email (FNum A) d = (ok_true, d1) ->
     castVote now2 (Int mid) name email (FNum B) d1 = (ok_true, d2) ->
     A <> B ->
     (forall v, In v (potm_votes d) -> v_match_id v = mid ->
                v_user_email v = text email) ->
     spec_votes (Int mid) d2 B = 1 /\ spec_votes (Int mid) d2 A = 0 /\
     forall p, In p (players d2) ->
       (p_id p = B -> In (mkResultRow B (p_name p) 1) (results (Int mid) d2)) /\
       (p_id p = A -> In (mkResultRow A (p_name p) 0) (results (Int mid) d2))).
Proof.
  intros d. pose proof (reachable_wf today rs) as Hwf. fold d in Hwf.
  split; [|split].
  - intros mid email. now apply votes_of_le1.
  - intros now mid name email player_id d' H.
    exact (proj1 (castVote_row _ _ _ _ _ _ _ Hwf H)).
  - intros now1 now2 mid name email A B d1 d2 H1 H2 Hne Honly.
    assert (Hwf1 : wf d1).
    { pose proof (castVote_wf now1 (Int mid) name email (FNum A) d Hwf) as W.
      now rewrite H1 in W. }
    assert (Hwf2 : wf d2).
    { pose proof (castVote_wf now2 (Int mid) name email (FNum B) d1 Hwf1) as W.
      now rewrite H2 in W. }
    pose proof (castVote_only _ _ _ _ _ _ _ Hwf H1 Honly) as Honly1.
    pose proof (castVote_only _ _ _ _ _ _ _ Hwf1 H2 Honly1) as Honly2.
    destruct (castVote_row _ _ _ _ _ _ _ Hwf1 H2)
      as ((row & Hrow & Hp & _) & _).
    injection Hp as Hp.
    assert (HB : spec_votes (Int mid) d2 B = 1).
    { rewrite (spec_votes_single mid (text email) d2 row B Honly2 Hrow).
      rewrite Hp, Z.eqb_refl. reflexivity. }
    assert (HA : spec_votes (Int mid) d2 A = 0).
    { rewrite (spec_votes_single mid (text email) d2 row A Honly2 Hrow).
      rewrite Hp. destruct (Z.eqb_spec B A); [congruence | reflexivity]. }
    split; [exact HB|]. split; [exact HA|].
    intros p Hin. pose proof (in_results (Int mid) d2 p Hwf2 Hin) as Hres.
    unfold results_row in Hres.
    split; intros E; rewrite E in Hres; [now rewrite HB in Hres|].
    now rewrite HA in Hres.
Qed.

Lemma votes_one_row_per_match_email_witness :
  let d := run [] (init_db "2025-05-11") in
  let d1 := snd (castVote "2025-05-11 21:00:00" (Int 1) (Some "Joan")
                   (Some "joan@example.com") (FNum 1) d) in
  let d2 := snd (castVote "2025-05-11 21:05:00" (Int 1) (Some "Joan")
                   (Some "joan@example.com") (FNum 2) d1) in
  potm_votes d1 = [mkVote 1 1 1 "joan@example.com" "2025-05-11 21:00:00"] /\
  potm_votes d2 = [mkVote 1 1 2 "joan@example.com" "2025-05-11 21:05:00"] /\
  In (mkResultRow 2 "Pedri" 1) (results (Int 1) d2) /\
  In (mkResultRow 1 "Lamine Yamal" 0) (results (Int 1) d2).
Proof.
  intros d d1 d2.
  split; [reflexivity|]. split; [reflexivity|].
  destruct (votes_one_row_per_match_email "2025-05-11" []) as (_ & _ & H).
  destruct (H "2025-05-11 21:00:00" "2025-05-11 21:05:00" 1 (Some "Joan")
              (Some "joan@example.com") 1 2 d1 d2 eq_refl eq_refl
              ltac:(discriminate) ltac:(intros v []))
    as (_ & _ & Hres).
  split.
  - apply (proj1 (Hres (mkPlayer 2 "Pedri" "FC Barcelona" EmptyString 0)
                       ltac:(right; left; reflexivity))).
    reflexivity.
  - apply (proj2 (Hres (mkPlayer 1 "Lamine Yamal" "FC Barcelona" EmptyString 0)
                       ltac:(left; reflexivity))).
    reflexivity.
Defined.

(** * Further properties of the server *)

(** ** References and checks are invariants *)

Lemma next_id_positive ids : 1 <= next_id ids.
Proof.
  unfold next_id.
  assert (0 <= fold_right Z.max 0 ids); [|lia].
  induction ids as [|x ids IH]; cbn [fold_right]; lia.
Qed.

Lemma has_player_In d id :
  has_player d id = true <-> exists p, In p (players d) /\ p_id p = id.
Proof.
  unfold has_player. rewrite existsb_exists.
  split; intros (p & Hp & E); exists p; split; auto; now apply Z.eqb_eq.
Qed.

Lemma has_user_In d id :
  has_user d id = true <-> exists u, In u (users d) /\ u_id u = id.
Proof.
  unfold has_user. rewrite existsb_exists.
  split; intros (u & Hu & E); exists u; split; auto; now apply Z.eqb_eq.
Qed.

Lemma has_match_In d id :
  has_match d id = true <-> exists m, In m (matches d) /\ m_id m = id.
Proof.
  unfold has_match. rewrite existsb_exists.
  split; intros (m & Hm & E); exists m; split; auto; now apply Z.eqb_eq.
Qed.

Lemma has_email_In d email :
  has_email d email = true <-> exists u, In u (users d) /\ u_email u = email.
Proof.
  unfold has_email. rewrite existsb_exists.
  split; intros (u & Hu & E); exists u; split; auto; now apply String.eqb_eq.
Qed.

Lemma referential_set_allocations d l :
  referential d ->
  (forall a, In a l ->
     has_user d (a_user_id a) = true /\
     has_player d (a_player_id a) = true /\
     0 <= a_points_allocated a) ->
  referential (set_allocations d l).
Proof.
  intros [R1 R2 R3 R4 R5 R6 R7 R8 R9] H.
  constructor; simpl; auto; intros a Ha; now apply H.
Qed.

Lemma referential_set_potm_votes d l :
  referential d ->
  (forall v, In v l ->
     has_match d (v_match_id v) = true /\
     has_player d (v_player_id v) = true /\
     has_email d (v_user_email v) = true) ->
  referential (set_potm_votes d l).
Proof.
  intros [R1 R2 R3 R4 R5 R6 R7 R8 R9] H.
  constructor; simpl; auto; intros v Hv; now apply H.
Qed.

Lemma referential_add_user d u :
  referential d -> 1 <= u_id u ->
  referential (set_users d (users d ++ [u])).
Proof.
  intros [R1 R2 R3 R4 R5 R6 R7 R8 R9] Hu.
  constructor; simpl; auto.
  - intros u' Hin. apply in_app_or in Hin as [Hin|[<-|[]]]; auto.
  - intros a Ha. specialize (R4 a Ha). unfold has_user in *. simpl.
    rewrite existsb_app, R4. reflexivity.
  - intros v Hv. specialize (R9 v Hv). unfold has_email in *. simpl.
    rewrite existsb_app, R9. reflexivity.
Qed.

Lemma referential_add_match d m :
  referential d -> 1 <= m_id m ->
  referential (set_matches d (matches d ++ [m])).
Proof.
  intros [R1 R2 R3 R4 R5 R6 R7 R8 R9] Hm.
  constructor; simpl; auto.
  - intros m' Hin. apply in_app_or in Hin as [Hin|[<-|[]]]; auto.
  - intros v Hv. specialize (R7 v Hv). unfold has_match in *. simpl.
    rewrite existsb_app, R7. reflexivity.
Qed.

Lemma referential_set_players d l :
  referential d ->
  (forall p, In p l -> 1 <= p_id p) ->
  (forall id, has_player d id = true -> existsb (fun p => p_id p =? id) l = true) ->
  referential (set_players d l).
Proof.
  intros [R1 R2 R3 R4 R5 R6 R7 R8 R9] Hids Hhas.
  constructor; simpl; auto.
  - intros a Ha. apply Hhas. now apply R5.
  - intros v Hv. apply Hhas. now apply R8.
Qed.

Lemma upsertAllocation_referential user_id p q d o d' :
  upsertAllocation user_id p q d = (o, d') -> referential d -> referential d'.
Proof.
  unfold upsertAllocation.
  destruct p as [| |b|pid]; destruct q as [| |b'|pts]; cbn;
    try (now intros [= <- <-]).
  destruct (Z.ltb_spec pts 0); [now intros [= <- <-]|].
  destruct (existsb (alloc_conflict user_id pid) (allocations d)) eqn:E.
  - intros [= <- <-] R. apply referential_set_allocations; [exact R|].
    intros a' Ha'. apply in_map_iff in Ha' as (a & <- & Ha).
    unfold with_points. destruct (alloc_conflict user_id pid a); simpl.
    + repeat split; [now apply (ref_alloc_user d R) | now apply (ref_alloc_player d R) | lia].
    + repeat split;
        [now apply (ref_alloc_user d R) | now apply (ref_alloc_player d R)
        | now apply (ref_alloc_points d R)].
  - destruct (has_user d user_id && has_player d pid) eqn:F;
      [|now intros [= <- <-]].
    apply andb_true_iff in F as [Fu Fp].
    intros [= <- <-] R. apply referential_set_allocations; [exact R|].
    intros a Ha. apply in_app_or in Ha as [Ha|[<-|[]]]; simpl.
    + repeat split;
        [now apply (ref_alloc_user d R) | now apply (ref_alloc_player d R)
        | now apply (ref_alloc_points d R)].
    + repeat split; auto.
Qed.

Lemma upsertEntries_referential user_id entries d o d' :
  upsertEntries user_id entries d = (o, d') -> referential d -> referential d'.
Proof.
  revert d. induction entries as [|a rest IH]; simpl; intros d.
  - now intros [= <- <-].
  - destruct (negb (truthy (player_id a))); [now intros [= <- <-]|].
    unfold bind.
    destruct (upsertAllocation user_id (player_id a) (points_allocated a) d)
      as [[[]|e] d1] eqn:E.
    + intros H R. apply (IH _ H). eapply upsertAllocation_referential; eassumption.
    + intros [= <- <-] R. eapply upsertAllocation_referential; eassumption.
Qed.

Lemma resolveUser_referential name email d o d' :
  resolveUser name email d = (o, d') -> referential d -> referential d'.
Proof.
  intros H R.
  destruct (resolveUser_cases name email d) as [(u & _ & E)|[_ E]];
    cbv zeta in E; rewrite E in H; injection H as <- <-; [exact R|].
  apply referential_add_user; [exact R|]. simpl. apply next_id_positive.
Qed.

Lemma resolveUser_has_email name email d u d' :
  resolveUser name email d = (Return u, d') ->
  In u (users d') /\ u_email u = email /\ has_email d' email = true.
Proof.
  intros H.
  assert (Hin : In u (users d') /\ u_email u = email).
  { destruct (resolveUser_cases name email d) as [(u0 & F & E)|[_ E]];
      cbv zeta in E; rewrite E in H; injection H as <- <-.
    - apply find_some in F as [Hin Hu]. split; [exact Hin|].
      now apply String.eqb_eq.
    - simpl. split; [apply in_or_app; right; now left | reflexivity]. }
  destruct Hin as [Hin Hu]. repeat split; auto.
  apply has_email_In. now exists u.
Qed.

Lemma upsertVote_referential now match_id p email d o d' :
  upsertVote now match_id p email d = (o, d') ->
  referential d -> has_email d email = true -> referential d'.
Proof.
  unfold upsertVote.
  destruct p as [| |b|pid]; cbn; try (now intros [= <- <-]).
  destruct (has_player d pid) eqn:Hp; cbn; [|now intros [= <- <-]].
  destruct (existsb (vote_conflict match_id email) (potm_votes d)) eqn:E.
  - intros [= <- <-] R He. apply referential_set_potm_votes; [exact R|].
    pose proof (ref_vote_match d R) as Q1.
    pose proof (ref_vote_player d R) as Q2.
    pose proof (ref_vote_user d R) as Q3.
    intros v' Hv'. apply in_map_iff in Hv' as (v & <- & Hv).
    unfold with_vote. destruct (vote_conflict match_id email v); simpl;
      repeat split; auto.
  - destruct (has_match d match_id) eqn:Hm; [|now intros [= <- <-]].
    intros [= <- <-] R He. apply referential_set_potm_votes; [exact R|].
    pose proof (ref_vote_match d R) as Q1.
    pose proof (ref_vote_player d R) as Q2.
    pose proof (ref_vote_user d R) as Q3.
    intros v Hv. apply in_app_or in Hv as [Hv|[<-|[]]]; simpl;
      repeat split; auto.
Qed.

Lemma submitAllocations_referential name email allocations d :
  referential d -> referential (snd (submitAllocations name email allocations d)).
Proof.
  intros R.
  destruct (submitAllocations_cases name email allocations d)
    as [(st & msg & ->)|(entries & u & d' & _ & _ & _ & _ & Htx & ->)]; simpl;
    [exact R|].
  apply tx_return in Htx as (d1 & Hr & Hu).
  apply (upsertEntries_referential _ _ _ _ _ Hu).
  now apply (resolveUser_referential _ _ _ _ _ Hr).
Qed.

Lemma castVote_referential now match_id name email player_id d :
  referential d ->
  referential (snd (castVote now match_id name email player_id d)).
Proof.
  intros R.
  destruct (castVote_cases now match_id name email player_id d)
    as [(st & msg & ->)
       |(mid & u & d1 & d' & _ & _ & _ & _ & _ & Hr & Hv)]; simpl;
    [exact R|].
  pose proof (resolveUser_referential _ _ _ _ _ Hr R) as R1.
  destruct (resolveUser_has_email _ _ _ _ _ Hr) as (_ & _ & He).
  destruct Hv as [[V ->]|(e & V & ->)]; simpl;
    eapply upsertVote_referential; eassumption.
Qed.

Lemma createPlayer_referential name club photo_url d :
  referential d -> referential (snd (createPlayer name club photo_url d)).
Proof.
  intros R. unfold createPlayer. destruct (missing name); simpl; [exact R|].
  apply referential_set_players; [exact R| |].
  - intros pl Hp. apply in_app_or in Hp as [Hp|[<-|[]]].
    + now apply (ref_player_ids d R).
    + simpl. apply next_id_positive.
  - intros id H. unfold has_player in H. rewrite existsb_app, H. reflexivity.
Qed.

Lemma adjustPoints_referential id delta set d :
  referential d -> referential (snd (adjustPoints id delta set d)).
Proof.
  intros R. unfold adjustPoints. destruct (getPlayer id d); simpl; [|exact R].
  destruct id as [i|]; simpl; [|exact R].
  apply referential_set_players; [exact R| |].
  - intros pl Hp. apply in_map_iff in Hp as (p0 & <- & Hp0).
    rewrite with_total_points_id. now apply (ref_player_ids d R).
  - intros id H. unfold has_player in H.
    rewrite existsb_exists in *. destruct H as (pl & Hp & E).
    eexists. split; [apply in_map; exact Hp | now rewrite with_total_points_id].
Qed.

Lemma createMatch_referential date opponent home_away status d :
  referential d ->
  referential (snd (createMatch date opponent home_away status d)).
Proof.
  intros R. unfold createMatch.
  destruct (missing date || missing opponent); simpl; [exact R|].
  destruct (bind_text (or_default "HOME" home_away)) as [h|];
    destruct (bind_text (or_default "final" status)) as [s|];
    try destruct (home_away_check h); simpl; try exact R.
  apply referential_add_match; [exact R|]. simpl. apply next_id_positive.
Qed.

Lemma handle_referential r d : referential d -> referential (snd (handle r d)).
Proof.
  destruct r; simpl.
  - apply createPlayer_referential.
  - apply adjustPoints_referential.
  - apply submitAllocations_referential.
  - apply createMatch_referential.
  - apply castVote_referential.
Qed.

Lemma run_referential rs d : referential d -> referential (run rs d).
Proof.
  unfold run. revert d. induction rs as [|r rs IH]; simpl; intros d H.
  - exact H.
  - apply IH. now apply handle_referential.
Qed.

Lemma init_db_referential today : referential (init_db today).
Proof.
  constructor; simpl; try tauto.
  - intros p [<-|[<-|[<-|[]]]]; simpl; lia.
  - intros m [<-|[]]; simpl; lia.
Qed.

Lemma reachable_referential today rs : referential (run rs (init_db today)).
Proof. apply run_referential, init_db_referential. Qed.

(** X1.  In every database the server can reach, every allocation row
    refers to a user and a player that exist and carries points that are not
    negative, and every vote row refers to a match and a player that exist
    and carries the email of a user that exists. *)
Theorem schema_references_hold (today : string) (rs : list request) :
  let d := run rs (init_db today) in
  (forall a, In a (allocations d) ->
     (exists u, In u (users d) /\ u_id u = a_user_id a) /\
     (exists p, In p (players d) /\ p_id p = a_player_id a) /\
     0 <= a_points_allocated a) /\
  (forall v, In v (potm_votes d) ->
     (exists m, In m (matches d) /\ m_id m = v_match_id v) /\
     (exists p, In p (players d) /\ p_id p = v_player_id v) /\
     (exists u, In u (users d) /\ u_email u = v_user_email v)).
Proof.
  intros d. pose proof (reachable_referential today rs) as R. fold d in R.
  split.
  - intros a Ha. repeat split.
    + apply has_user_In. now apply (ref_alloc_user d R).
    + apply has_player_In. now apply (ref_alloc_player d R).
    + now apply (ref_alloc_points d R).
  - intros v Hv. repeat split.
    + apply has_match_In. now apply (ref_vote_match d R).
    + apply has_player_In. now apply (ref_vote_player d R).
    + apply has_email_In. now apply (ref_vote_user d R).
Qed.

Lemma NoDup_map_injective {A B} (f : A -> B) l x y :
  NoDup (map f l) -> In x l -> In y l -> f x = f y -> x = y.
Proof.
  induction l as [|z l IH]; simpl; [tauto|].
  intros Hnd. inversion Hnd as [|? ? Hz Hl]; subst.
  intros [->|Hx] [->|Hy] E; auto.
  - elim Hz. rewrite E. now apply in_map.
  - elim Hz. rewrite <- E. now apply in_map.
Qed.

(** X2.  In every database the server can reach, a user is determined by
    its email and by its id, a player by its id, and every user, player and
    match id is at least 1. *)
Theorem rows_are_identified (today : string) (rs : list request) :
  let d := run rs (init_db today) in
  (forall u1 u2, In u1 (users d) -> In u2 (users d) ->
     u_email u1 = u_email u2 \/ u_id u1 = u_id u2 -> u1 = u2) /\
  (forall p1 p2, In p1 (players d) -> In p2 (players d) ->
     p_id p1 = p_id p2 -> p1 = p2) /\
  (forall u, In u (users d) -> 1 <= u_id u) /\
  (forall p, In p (players d) -> 1 <= p_id p) /\
  (forall m, In m (matches d) -> 1 <= m_id m).
Proof.
  intros d.
  pose proof (reachable_wf today rs) as W. fold d in W.
  pose proof (reachable_referential today rs) as R. fold d in R.
  split; [|split; [|split; [|split]]].
  - intros u1 u2 H1 H2 [E|E].
    + exact (NoDup_map_injective u_email _ _ _ (wf_emails d W) H1 H2 E).
    + exact (NoDup_map_injective u_id _ _ _ (wf_user_ids d W) H1 H2 E).
  - intros p1 p2 H1 H2 E.
    exact (NoDup_map_injective p_id _ _ _ (wf_player_ids d W) H1 H2 E).
  - apply (ref_user_ids d R).
  - apply (ref_player_ids d R).
  - apply (ref_match_ids d R).
Qed.

(** ** Rows are kept *)

Lemma extends_refl {A} (l : list A) : extends l l.
Proof. exists []. now rewrite app_nil_r. Qed.

Lemma extends_trans {A} (l1 l2 l3 : list A) :
  extends l1 l2 -> extends l2 l3 -> extends l1 l3.
Proof. intros [a ->] [b ->]. exists (a ++ b)%list. now rewrite app_assoc. Qed.

Lemma extends_snoc {A} (l : list A) x : extends l (l ++ [x])%list.
Proof. now exists [x]. Qed.

Lemma extends_eq {A} (l l' : list A) : l' = l -> extends l l'.
Proof. intros ->. apply extends_refl. Qed.

Lemma grows_refl d : grows d d.
Proof. constructor; apply extends_refl. Qed.

Lemma grows_trans d1 d2 d3 : grows d1 d2 -> grows d2 d3 -> grows d1 d3.
Proof.
  intros [A1 A2 A3 A4 A5] [B1 B2 B3 B4 B5].
  constructor; eapply extends_trans; eassumption.
Qed.

Lemma upsertAllocation_grows user_id p q d o d' :
  upsertAllocation user_id p q d = (o, d') -> grows d d'.
Proof.
  intros H.
  apply upsertAllocation_cases in H
    as [(e & _ & ->)|(pid & pts & _ & _ & _ & [[_ ->]|[_ ->]])].
  - apply grows_refl.
  - constructor; simpl; try apply extends_refl.
    apply extends_eq. rewrite map_map. apply map_ext. intros a.
    unfold with_points. now destruct (alloc_conflict user_id pid a).
  - constructor; simpl; try apply extends_refl.
    rewrite map_app. apply extends_snoc.
Qed.

Lemma upsertEntries_grows user_id entries d o d' :
  upsertEntries user_id entries d = (o, d') -> grows d d'.
Proof.
  revert d. induction entries as [|a rest IH]; simpl; intros d.
  - intros [= <- <-]. apply grows_refl.
  - destruct (negb (truthy (player_id a)));
      [intros [= <- <-]; apply grows_refl|].
    unfold bind.
    destruct (upsertAllocation user_id (player_id a) (points_allocated a) d)
      as [[[]|e] d1] eqn:E.
    + intros H. eapply grows_trans; [eapply upsertAllocation_grows; eassumption|].
      now apply IH.
    + intros [= <- <-]. eapply upsertAllocation_grows; eassumption.
Qed.

Lemma upsertVote_grows now match_id p email d o d' :
  upsertVote now match_id p email d = (o, d') -> grows d d'.
Proof.
  intros H.
  apply upsertVote_cases in H
    as [(e & _ & ->)|(pid & _ & _ & _ & [[_ ->]|[_ ->]])].
  - apply grows_refl.
  - constructor; simpl; try apply extends_refl.
    apply extends_eq. rewrite map_map. apply map_ext. intros v.
    unfold with_vote. now destruct (vote_conflict match_id email v).
  - constructor; simpl; try apply extends_refl.
    rewrite map_app. apply extends_snoc.
Qed.

Lemma resolveUser_grows name email d o d' :
  resolveUser name email d = (o, d') -> grows d d'.
Proof.
  intros H.
  destruct (resolveUser_cases name email d) as [(u & _ & E)|[_ E]];
    cbv zeta in E; rewrite E in H; injection H as <- <-.
  - apply grows_refl.
  - constructor; simpl; try apply extends_refl. apply extends_snoc.
Qed.

Lemma handle_grows r d : grows d (snd (handle r d)).
Proof.
  destruct r as [name club photo_url|id delta set|name email allocations
                |date opponent home_away status|now match_id name email player_id];
    simpl.
  - unfold createPlayer. destruct (missing name); simpl; [apply grows_refl|].
    constructor; simpl; try apply extends_refl.
    rewrite map_app. apply extends_snoc.
  - unfold adjustPoints. destruct (getPlayer id d); simpl; [|apply grows_refl].
    destruct id as [i|]; simpl; [|apply grows_refl].
    constructor; simpl; try apply extends_refl.
    apply extends_eq. rewrite map_map. apply map_ext. intros pl.
    unfold with_total_points. now destruct (p_id pl =? i).
  - destruct (submitAllocations_cases name email allocations d)
      as [(st & msg & ->)|(entries & u & d' & _ & _ & _ & _ & Htx & ->)]; simpl;
      [apply grows_refl|].
    apply tx_return in Htx as (d1 & Hr & Hu).
    eapply grows_trans;
      [eapply resolveUser_grows | eapply upsertEntries_grows]; eassumption.
  - unfold createMatch.
    destruct (missing date || missing opponent); simpl; [apply grows_refl|].
    destruct (bind_text (or_default "HOME" home_away)) as [h|];
      destruct (bind_text (or_default "final" status)) as [s|];
      try destruct (home_away_check h); simpl; try apply grows_refl.
    constructor; simpl; try apply extends_refl. apply extends_snoc.
  - destruct (castVote_cases now match_id name email player_id d)
      as [(st & msg & ->)
         |(mid & u & d1 & d' & _ & _ & _ & _ & _ & Hr & Hv)]; simpl;
      [apply grows_refl|].
    eapply grows_trans; [eapply resolveUser_grows; eassumption|].
    destruct Hv as [[V ->]|(e & V & ->)]; simpl;
      eapply upsertVote_grows; eassumption.
Qed.

(** X3.  No sequence of requests deletes a row or changes an identifying
    column: the users and matches it started from are still there, unchanged
    and in place, with new rows only after them; so are the players up to
    their total_points, the allocations up to their points_allocated, and the
    votes up to their player_id and created_at. *)
Theorem rows_are_never_deleted (rs : list request) (d : db) :
  extends (users d) (users (run rs d)) /\
  extends (matches d) (matches (run rs d)) /\
  extends (map player_identity (players d))
          (map player_identity (players (run rs d))) /\
  extends (map allocation_identity (allocations d))
          (map allocation_identity (allocations (run rs d))) /\
  extends (map vote_identity (potm_votes d))
          (map vote_identity (potm_votes (run rs d))).
Proof.
  assert (G : grows d (run rs d)).
  { unfold run. revert d. induction rs as [|r rs IH]; simpl; intros d.
    - apply grows_refl.
    - eapply grows_trans; [apply handle_grows | apply IH]. }
  destruct G as [G1 G2 G3 G4 G5]. auto.
Qed.

(** ** Creating players and matches *)

Lemma find_snoc {A} (f : A -> bool) l x :
  find f (l ++ [x])
  = match find f l with
    | Some y => Some y
    | None => if f x then Some x else None
    end.
Proof.
  induction l as [|y l IH]; simpl; [reflexivity|].
  destruct (f y); [reflexivity | exact IH].
Qed.

Lemma find_fresh_id {A} (id_of : A -> Z) l :
  find (fun x => id_of x =? next_id (map id_of l)) l = None.
Proof.
  destruct (find _ l) as [x|] eqn:F; [|reflexivity].
  apply find_some in F as [Hin E]. apply Z.eqb_eq in E.
  elim (next_id_fresh (map id_of l)). rewrite <- E. now apply in_map.
Qed.

(** X4.  Creating a player without a name (absent or empty) answers 400 and
    changes nothing.  With a name it answers a fresh id, under which the new
    player can be fetched, with the given name, club and photo (the empty
    string for those that are absent) and 0 total_points; every other player
    is fetched as before and the other tables are untouched. *)
Theorem createPlayer_round_trip (name club photo_url : option string) (d : db) :
  (missing name = true ->
   createPlayer name club photo_url d = (error 400 "name required", d)) /\
  (missing name = false ->
   exists id d',
     createPlayer name club photo_url d = (ok_id id, d') /\
     getPlayer (Int id) d = None /\
     getPlayer (Int id) d'
     = Some (mkPlayer id (text name) (text club) (text photo_url) 0) /\
     (forall j, j <> id -> getPlayer (Int j) d' = getPlayer (Int j) d) /\
     users d' = users d /\ allocations d' = allocations d /\
     matches d' = matches d /\ potm_votes d' = potm_votes d).
Proof.
  unfold createPlayer. split; intros H; rewrite H; [reflexivity|].
  do 2 eexists. split; [reflexivity|]. simpl.
  pose proof (find_fresh_id p_id (players d)) as F.
  split; [exact F|]. split.
  - rewrite find_snoc, F. simpl. now rewrite Z.eqb_refl.
  - split; [|auto]. intros j Hj. rewrite find_snoc.
    destruct (find (fun p => p_id p =? j) (players d)); [reflexivity|]. simpl.
    destruct (Z.eqb_spec (next_id (map p_id (players d))) j); congruence.
Qed.

Lemma createPlayer_round_trip_witness :
  let d := init_db "2025-05-11" in
  let d' := snd (createPlayer (Some "Fermin") None None d) in
  createPlayer None (Some "FC Barcelona") None d = (error 400 "name required", d) /\
  getPlayer (Int 4) d' = Some (mkPlayer 4 "Fermin" EmptyString EmptyString 0) /\
  getPlayer (Int 2) d' = getPlayer (Int 2) d.
Proof.
  intros d d'.
  destruct (createPlayer_round_trip None (Some "FC Barcelona") None d) as [H1 _].
  destruct (createPlayer_round_trip (Some "Fermin") None None d) as [_ H2].
  destruct (H2 eq_refl) as (id & d1 & E & _ & G & Hother & _).
  injection E as <- <-.
  split; [exact (H1 eq_refl)|]. split; [exact G|].
  apply Hother. discriminate.
Defined.

(** X5.  Creating a match without a date or without an opponent answers 400
    and changes nothing.  Otherwise home_away defaults to HOME and status to
    final when they are undefined, and only then: a null is bound as NULL, a
    number as its text, a string as itself, and a boolean is refused by the
    driver (TypeError), which escapes the handler and changes nothing.  A
    home_away that is a number or a string other than HOME or AWAY violates
    the table's check, escapes the handler and changes nothing; a NULL
    home_away passes the check.  Else the answer is a fresh id, under which
    the new match can be fetched with the given date and opponent and the
    bound home_away and status; every other match is fetched as before and
    the other tables are untouched. *)
Theorem createMatch_round_trip (date opponent : option string)
  (home_away status : jsval) (d : db) :
  (missing date = true \/ missing opponent = true ->
   createMatch date opponent home_away status d
   = (error 400 "date and opponent required", d)) /\
  (missing date = false -> missing opponent = false ->
   (typeof home_away = TBoolean \/ typeof status = TBoolean ->
    createMatch date opponent home_away status d = (uncaught TypeError, d)) /\
   (forall h s,
      bind_text (or_default "HOME" home_away) = Some h ->
      bind_text (or_default "final" status) = Some s ->
      (home_away_check h = false ->
       createMatch date opponent home_away status d
       = (uncaught SqliteConstraint, d)) /\
      (home_away_check h = true ->
       exists id d',
         createMatch date opponent home_away status d = (ok_id id, d') /\
         getMatch (Int id) d = None /\
         getMatch (Int id) d'
         = Some (mkMatch id (text date) (text opponent) h s) /\
         (forall j, j <> id -> getMatch (Int j) d' = getMatch (Int j) d) /\
         users d' = users d /\ players d' = players d /\
         allocations d' = allocations d /\ potm_votes d' = potm_votes d))).
Proof.
  split.
  - unfold createMatch.
    intros [H|H]; rewrite H; [reflexivity | now rewrite orb_true_r].
  - intros Hd Ho. unfold createMatch. rewrite Hd, Ho. simpl. split.
    + intros [H|H].
      * destruct home_away; try discriminate H. reflexivity.
      * destruct status; try discriminate H.
        now destruct (bind_text (or_default "HOME" home_away)).
    + intros h s Hh Hs. rewrite Hh, Hs. split; intros Hc; rewrite Hc;
        [reflexivity|].
      do 2 eexists. split; [reflexivity|]. simpl.
      pose proof (find_fresh_id m_id (matches d)) as F.
      split; [exact F|]. split.
      * rewrite find_snoc, F. simpl. now rewrite Z.eqb_refl.
      * split; [|auto]. intros j Hj. rewrite find_snoc.
        destruct (find (fun m => m_id m =? j) (matches d)); [reflexivity|]. simpl.
        destruct (Z.eqb_spec (next_id (map m_id (matches d))) j); congruence.
Qed.

Lemma createMatch_round_trip_witness :
  let d := init_db "2025-05-11" in
  createMatch (Some "2025-05-18") None JUndefined JUndefined d
  = (error 400 "date and opponent required", d) /\
  createMatch (Some "2025-05-18") (Some "Villarreal") (JStr "home") JUndefined d
  = (uncaught SqliteConstraint, d) /\
  createMatch (Some "2025-05-18") (Some "Villarreal") (JNum 1) JUndefined d
  = (uncaught SqliteConstraint, d) /\
  createMatch (Some "2025-05-18") (Some "Villarreal") JNull (JBool true) d
  = (uncaught TypeError, d) /\
  getMatch (Int 2)
    (snd (createMatch (Some "2025-05-18") (Some "Villarreal") JUndefined
            JUndefined d))
  = Some (mkMatch 2 "2025-05-18" "Villarreal" (CText "HOME") (CText "final")) /\
  getMatch (Int 2)
    (snd (createMatch (Some "2025-05-18") (Some "Villarreal") JNull JNull d))
  = Some (mkMatch 2 "2025-05-18" "Villarreal" CNull CNull).
Proof.
  intros d.
  split; [|split; [|split; [|split; [|split]]]].
  - apply (proj1 (createMatch_round_trip (Some "2025-05-18") None JUndefined
                    JUndefined d)).
    now right.
  - apply (proj2 (proj2 (createMatch_round_trip (Some "2025-05-18")
                           (Some "Villarreal") (JStr "home") JUndefined d)
                    eq_refl eq_refl) (CText "home") (CText "final")
             eq_refl eq_refl).
    reflexivity.
  - apply (proj2 (proj2 (createMatch_round_trip (Some "2025-05-18")
                           (Some "Villarreal") (JNum 1) JUndefined d)
                    eq_refl eq_refl) (CNumber 1) (CText "final")
             eq_refl eq_refl).
    reflexivity.
  - apply (proj1 (proj2 (createMatch_round_trip (Some "2025-05-18")
                           (Some "Villarreal") JNull (JBool true) d)
                    eq_refl eq_refl)).
    now right.
  - destruct (proj2 (proj2 (proj2 (createMatch_round_trip (Some "2025-05-18")
                                     (Some "Villarreal") JUndefined JUndefined d)
                              eq_refl eq_refl)
                       (CText "HOME") (CText "final") eq_refl eq_refl) eq_refl)
      as (id & d' & E & _ & G & _).
    rewrite E. simpl. injection E as <- <-. exact G.
  - destruct (proj2 (proj2 (proj2 (createMatch_round_trip (Some "2025-05-18")
                                     (Some "Villarreal") JNull JNull d)
                              eq_refl eq_refl)
                       CNull CNull eq_refl eq_refl) eq_refl)
      as (id & d' & E & _ & G & _).
    rewrite E. simpl. injection E as <- <-. exact G.
Defined.

(** ** Identity resolution *)

(** X6.  Resolving an identity never fails and returns a user with the
    requested email.  Resolving the same email again, under any name, returns
    that same user and writes nothing.  When the email had no user, the user
    returned is a new row appended to the table, with a fresh id and the name
    and email of the request. *)
Theorem resolveUser_idempotent (name email : string) (d : db) :
  exists u d1,
    resolveUser name email d = (Return u, d1) /\
    u_email u = email /\
    (forall name', resolveUser name' email d1 = (Return u, d1)) /\
    (has_email d email = false ->
     u = mkUser (next_id (map u_id (users d))) name email /\
     users d1 = (users d ++ [u])%list) /\
    (has_email d email = true -> d1 = d).
Proof.
  destruct (resolveUser_cases name email d) as [(u & F & E)|[F E]];
    cbv zeta in E.
  - exists u, d. split; [exact E|].
    pose proof (find_some _ _ F) as [Hin Hu]. apply String.eqb_eq in Hu.
    split; [exact Hu|]. split; [|split].
    + intros name'.
      destruct (resolveUser_cases name' email d) as [(u0 & F0 & E0)|[F0 _]];
        congruence.
    + intros H. unfold has_email in H.
      assert (existsb (fun u0 => String.eqb (u_email u0) email) (users d) = true).
      { apply existsb_exists. exists u. split; [exact Hin|].
        now apply String.eqb_eq. }
      congruence.
    + reflexivity.
  - do 2 eexists. split; [exact E|]. split; [reflexivity|]. split; [|split].
    + intros name'.
      destruct (resolveUser_cases name' email
                  (set_users d
                     (users d ++ [mkUser (next_id (map u_id (users d))) name email])))
        as [(u0 & F0 & E0)|[F0 _]]; simpl in F0;
        rewrite find_snoc, F in F0; simpl in F0;
        rewrite String.eqb_refl in F0; [|discriminate].
      now injection F0 as <-.
    + intros _. split; reflexivity.
    + intros H. apply has_email_In in H as (u & Hin & Hu).
      pose proof (find_none _ _ F u Hin) as N. simpl in N.
      rewrite Hu, String.eqb_refl in N. discriminate.
Qed.

(** ** Casting a vote *)

(** X7.  A vote without a name, an email or a player_id answers 400 whatever
    the match; with all three and a match id that names no match it answers
    404.  Neither writes anything: no user is created. *)
Theorem castVote_validation (now : string) (match_id : number)
  (name email : option string) (player_id : field) (d : db) :
  (missing name = true \/ missing email = true \/ truthy player_id = false ->
   castVote now match_id name email player_id d
   = (error 400 "name, email, player_id required", d)) /\
  (missing name = false -> missing email = false -> truthy player_id = true ->
   getMatch match_id d = None ->
   castVote now match_id name email player_id d
   = (error 404 "Match not found", d)).
Proof.
  unfold castVote. split.
  - intros [H|[H|H]]; rewrite H; simpl;
      rewrite ?orb_true_r; reflexivity.
  - intros Hn He Hp Hm. rewrite Hn, He, Hp. simpl.
    destruct match_id as [mid|]; [|reflexivity].
    simpl in Hm |- *. now rewrite Hm.
Qed.

Lemma castVote_validation_witness :
  let d := init_db "2025-05-11" in
  castVote "2025-05-11 21:00:00" (Int 7) (Some "Joan") None (FNum 1) d
  = (error 400 "name, email, player_id required", d) /\
  castVote "2025-05-11 21:00:00" (Int 7) (Some "Joan") (Some "joan@example.com")
    (FNum 1) d
  = (error 404 "Match not found", d).
Proof.
  intros d. split.
  - apply (proj1 (castVote_validation "2025-05-11 21:00:00" (Int 7) (Some "Joan")
                    None (FNum 1) d)).
    right. left. reflexivity.
  - apply (proj2 (castVote_validation "2025-05-11 21:00:00" (Int 7) (Some "Joan")
                    (Some "joan@example.com") (FNum 1) d));
      reflexivity.
Defined.

(** X8.  A vote with a name, an email, an existing match and a player_id
    that is a number other than 0 succeeds exactly when the player exists.
    When the player does not exist the insert violates the foreign key and
    the exception escapes the handler with no vote written; the handler runs
    no transaction, so in both cases the voter's user row exists afterwards,
    newly created if the email was unknown. *)
Theorem castVote_needs_player (now : string) (mid pid : Z)
  (name email : option string) (m : match_row) (d : db) :
  missing name = false -> missing email = false -> pid <> 0 ->
  getMatch (Int mid) d = Some m ->
  let r := castVote now (Int mid) name email (FNum pid) d in
  (has_player d pid = true -> fst r = ok_true) /\
  (has_player d pid = false ->
   fst r = uncaught SqliteConstraint /\ potm_votes (snd r) = potm_votes d) /\
  has_email (snd r) (text email) = true /\
  (has_email d (text email) = false ->
   users (snd r)
   = (users d ++
        [mkUser (next_id (map u_id (users d))) (text name) (text email)])%list) /\
  (has_email d (text email) = true -> users (snd r) = users d).
Proof.
  intros Hn He Hp Hm r.
  assert (Hhas : has_match d mid = true).
  { apply has_match_In. exists m. simpl in Hm. apply find_some in Hm as [Hin E].
    split; [exact Hin | now apply Z.eqb_eq]. }
  destruct (resolveUser_idempotent (text name) (text email) d)
    as (u & d1 & Hr & Hu & _ & Hnew & Hold).
  destruct (resolveUser_keeps (text name) (text email)) as (K1 & _ & K3 & K4).
  destruct (resolveUser_has_email _ _ _ _ _ Hr) as (_ & _ & Hemail).
  assert (Hp1 : has_player d1 pid = has_player d pid)
    by (unfold has_player; now rewrite (K1 _ _ _ Hr)).
  assert (Hm1 : has_match d1 mid = true)
    by (unfold has_match in *; now rewrite (K3 _ _ _ Hr)).
  assert (Er : r = match upsertVote now mid (FNum pid) (text email) d1 with
                   | (Return _, d') => (ok_true, d')
                   | (Throw e, d') => (uncaught e, d')
                   end).
  { unfold r, castVote. rewrite Hn, He. simpl.
    apply Z.eqb_neq in Hp. rewrite Hp. simpl in Hm |- *. rewrite Hm.
    unfold bind at 1. now rewrite Hr. }
  destruct (upsertVote_keeps now mid (FNum pid) (text email)) as (L1 & _).
  assert (Husers : users (snd r) = users d1).
  { rewrite Er.
    destruct (upsertVote now mid (FNum pid) (text email) d1) as [[[]|e] d'] eqn:V;
      simpl; exact (L1 _ _ _ V). }
  split; [|split; [|split; [|split]]].
  - intros H. rewrite Er. unfold upsertVote. cbn. rewrite Hp1, H. cbn.
    destruct (existsb _ (potm_votes d1)); [reflexivity|]. now rewrite Hm1.
  - intros H. rewrite Er. unfold upsertVote. cbn. rewrite Hp1, H. cbn.
    split; [reflexivity | exact (K4 _ _ _ Hr)].
  - unfold has_email in *. now rewrite Husers.
  - intros H. rewrite Husers. destruct (Hnew H) as [-> ->]. reflexivity.
  - intros H. rewrite Husers. now rewrite (Hold H).
Qed.

Lemma castVote_needs_player_witness :
  let d := init_db "2025-05-11" in
  let r := castVote "2025-05-11 21:00:00" (Int 1) (Some "Joan")
             (Some "joan@example.com") (FNum 9) d in
  fst r = uncaught SqliteConstraint /\
  potm_votes (snd r) = [] /\
  users (snd r) = [mkUser 1 "Joan" "joan@example.com"].
Proof.
  intros d r.
  destruct (castVote_needs_player "2025-05-11 21:00:00" 1 9 (Some "Joan")
              (Some "joan@example.com")
              (mkMatch 1 "2025-05-11" "Real Madrid" (CText "HOME") (CText "final")) d
              eq_refl eq_refl ltac:(discriminate) eq_refl)
    as (_ & H2 & _ & H4 & _).
  destruct (H2 eq_refl) as [E1 E2].
  split; [exact E1|]. split; [exact E2 | exact (H4 eq_refl)].
Defined.

(** ** Allocation submissions: all or nothing *)

(** X9.  A submission never touches players, matches or votes.  Either it
    succeeds and answers a user of the table with the submitted email, or it
    answers an error, 400 or 500, and the database is exactly what it was:
    no allocation row, and no user row either, is left behind. *)
Theorem submitAllocations_all_or_nothing (name email : option string)
  (allocations : option (list entry)) (d : db) :
  let r := submitAllocations name email allocations d in
  players (snd r) = players d /\ matches (snd r) = matches d /\
  potm_votes (snd r) = potm_votes d /\
  ((exists u,
      fst r = ok_user u /\ In u (users (snd r)) /\ u_email u = text email) \/
   (snd r = d /\
    exists msg, fst r = error 400 msg \/ fst r = error 500 msg)).
Proof.
  intros r. unfold r, submitAllocations.
  destruct (missing name || missing email); simpl;
    [repeat split; right; split; eauto|].
  destruct allocations as [entries|]; simpl;
    [|repeat split; right; split; eauto].
  destruct (negb (strict_eq (total entries) (Int 100))); simpl;
    [repeat split; right; split; eauto|].
  destruct (tx (text name) (text email) entries d) as [[u|e] d'] eqn:E; simpl.
  - apply tx_return in E as (d1 & Hr & Hu).
    destruct (resolveUser_keeps (text name) (text email)) as (K1 & _ & K3 & K4).
    destruct (upsertEntries_keeps (u_id u) entries) as (L1 & L2 & L3 & L4).
    destruct (resolveUser_has_email _ _ _ _ _ Hr) as (Hin & Hemail & _).
    rewrite (L2 _ _ _ Hu), (L3 _ _ _ Hu), (L4 _ _ _ Hu).
    rewrite (K1 _ _ _ Hr), (K3 _ _ _ Hr), (K4 _ _ _ Hr).
    repeat split. left. exists u. rewrite (L1 _ _ _ Hu). auto.
  - rewrite (tx_throw_rolls_back _ _ _ _ _ _ E).
    repeat split. right. split; eauto.
Qed.

Lemma upsertAllocation_return user_id p q d d' :
  upsertAllocation user_id p q d = (Return tt, d') -> referential d ->
  exists pid pts,
    p = FNum pid /\ q = FNum pts /\ 0 <= pts /\ has_player d pid = true.
Proof.
  unfold upsertAllocation.
  destruct p as [| |b|pid]; destruct q as [| |b'|pts]; cbn; try discriminate.
  destruct (Z.ltb_spec pts 0) as [Hneg|Hpos]; [discriminate|].
  intros H R. exists pid, pts. repeat split; auto.
  destruct (existsb (alloc_conflict user_id pid) (allocations d)) eqn:E.
  - apply existsb_exists in E as (a & Ha & Hc).
    apply alloc_conflict_key in Hc. unfold alloc_key in Hc.
    injection Hc as _ <-. now apply (ref_alloc_player d R).
  - destruct (has_user d user_id && has_player d pid) eqn:F; [|discriminate].
    now apply andb_true_iff in F.
Qed.

Lemma upsertEntries_return_writable user_id entries d d1 d' :
  upsertEntries user_id entries d1 = (Return tt, d') ->
  referential d1 -> players d1 = players d ->
  forallb (writable d) entries = true.
Proof.
  revert d1. induction entries as [|a rest IH]; simpl; intros d1 H R Hp;
    [reflexivity|].
  destruct (truthy (player_id a)) eqn:T; simpl in H; [|discriminate].
  unfold bind in H.
  destruct (upsertAllocation user_id (player_id a) (points_allocated a) d1)
    as [[[]|e] d2] eqn:E; [|discriminate].
  destruct (upsertAllocation_return _ _ _ _ _ E R)
    as (pid & pts & Epid & Epts & Hpts & Hhas).
  destruct (upsertAllocation_keeps user_id (player_id a) (points_allocated a))
    as (_ & K2 & _).
  apply andb_true_iff. split.
  - unfold writable. rewrite Epid, Epts. rewrite Epid in T. simpl in T.
    rewrite T. simpl. unfold has_player in *. rewrite <- Hp, Hhas.
    rewrite andb_true_r. now apply Z.leb_le.
  - apply (IH d2 H).
    + eapply upsertAllocation_referential; eassumption.
    + now rewrite (K2 _ _ _ E).
Qed.

Lemma upsertEntries_writable user_id entries d d1 :
  forallb (writable d) entries = true ->
  has_user d1 user_id = true -> players d1 = players d ->
  exists d', upsertEntries user_id entries d1 = (Return tt, d').
Proof.
  revert d1. induction entries as [|a rest IH]; simpl; intros d1 H Hu Hp.
  - now exists d1.
  - apply andb_true_iff in H as [Ha Hrest]. unfold writable in Ha.
    destruct (player_id a) as [| |b|pid] eqn:Epid; try discriminate.
    destruct (points_allocated a) as [| |b|pts] eqn:Epts; try discriminate.
    apply andb_true_iff in Ha as [Ha Hhas].
    apply andb_true_iff in Ha as [Hnz Hpts].
    simpl. rewrite Hnz. simpl.
    assert (Hhas1 : has_player d1 pid = true)
      by (unfold has_player in *; now rewrite Hp).
    assert (exists d2, upsertAllocation user_id (FNum pid) (FNum pts) d1
                       = (Return tt, d2)) as [d2 E].
    { unfold upsertAllocation. cbn.
      apply Z.leb_le in Hpts.
      destruct (Z.ltb_spec pts 0); [lia|].
      destruct (existsb _ (allocations d1)); [eauto|].
      rewrite Hu, Hhas1. simpl. eauto. }
    destruct (upsertAllocation_keeps user_id (FNum pid) (FNum pts))
      as (K1 & K2 & _).
    unfold bind. rewrite E. apply IH; [exact Hrest | |].
    + unfold has_user in *. now rewrite (K1 _ _ _ E).
    + now rewrite (K2 _ _ _ E).
Qed.

Lemma refused_not_writable d a : refused d a = true -> writable d a = false.
Proof.
  unfold refused, writable.
  destruct (player_id a) as [| |b|pid]; try reflexivity.
  destruct (points_allocated a) as [| |b|pts]; try reflexivity.
  intros H. apply orb_true_iff in H as [H|H].
  - apply Z.ltb_lt in H. destruct (Z.leb_spec 0 pts); [lia|].
    now rewrite andb_false_r.
  - apply negb_true_iff in H. rewrite H. now rewrite andb_false_r.
Qed.

Lemma forallb_refused d entries a :
  In a entries -> refused d a = true -> forallb (writable d) entries = false.
Proof.
  intros Hin Hr. destruct (forallb (writable d) entries) eqn:F; [|reflexivity].
  rewrite forallb_forall in F. specialize (F a Hin).
  now rewrite (refused_not_writable d a Hr) in F.
Qed.

(** X10.  In a database the server can reach, a submission with a name, an
    email and a total of 100 succeeds when every entry can be written: its
    player_id is a number other than 0 that names an existing player and its
    points_allocated is a number that is not negative.  It fails as a whole,
    with 500 and the database unchanged, when some entry has a negative
    number as points_allocated or a number as player_id that names no
    player. *)
Theorem submitAllocations_writable_entries (today : string)
  (rs : list request) (name email : option string) (entries : list entry) :
  let d := run rs (init_db today) in
  missing name = false -> missing email = false ->
  total entries = Int 100 ->
  (forallb (writable d) entries = true ->
   exists u d', submitAllocations name email (Some entries) d = (ok_user u, d')) /\
  (forall a, In a entries -> refused d a = true ->
   submitAllocations name email (Some entries) d
   = (error 500 "Allocation failed", d)).
Proof.
  intros d Hn He Ht.
  pose proof (reachable_referential today rs) as R. fold d in R.
  destruct (resolveUser_idempotent (text name) (text email) d)
    as (u & d1 & Hr & _).
  destruct (resolveUser_keeps (text name) (text email)) as (K1 & _).
  destruct (resolveUser_has_email _ _ _ _ _ Hr) as (Hin & _ & _).
  pose proof (resolveUser_referential _ _ _ _ _ Hr R) as R1.
  pose proof (K1 _ _ _ Hr) as Hp.
  assert (Hsub : submitAllocations name email (Some entries) d
                 = match upsertEntries (u_id u) entries d1 with
                   | (Return _, d') => (ok_user u, d')
                   | (Throw _, _) => (error 500 "Allocation failed", d)
                   end).
  { unfold submitAllocations. rewrite Hn, He. simpl.
    apply strict_eq_true in Ht. rewrite Ht. simpl.
    unfold tx, transaction. unfold bind at 1. rewrite Hr.
    unfold bind.
    destruct (upsertEntries (u_id u) entries d1) as [[[]|e] d2]; reflexivity. }
  split.
  - intros W.
    destruct (upsertEntries_writable (u_id u) entries d d1 W) as [d' U];
      [apply has_user_In; now exists u | exact Hp |].
    rewrite Hsub, U. eauto.
  - intros a Ha Hrefused.
    pose proof (forallb_refused d entries a Ha Hrefused) as W.
    rewrite Hsub.
    destruct (upsertEntries (u_id u) entries d1) as [[[]|e] d2] eqn:U;
      [|reflexivity].
    rewrite (upsertEntries_return_writable _ _ _ _ _ U R1 Hp) in W.
    discriminate.
Qed.

Lemma submitAllocations_writable_entries_witness :
  let d := run [] (init_db "2025-05-11") in
  (exists u d',
     submitAllocations (Some "Joan") (Some "joan@example.com")
       (Some [mkEntry (FNum 1) (FNum 100); mkEntry (FNum 3) (FNum 0)]) d
     = (ok_user u, d')) /\
  submitAllocations (Some "Joan") (Some "joan@example.com")
    (Some [mkEntry (FNum 1) (FNum 150); mkEntry (FNum 2) (FNum (-50))]) d
  = (error 500 "Allocation failed", d) /\
  submitAllocations (Some "Joan") (Some "joan@example.com")
    (Some [mkEntry (FNum 1) (FNum 50); mkEntry (FNum 8) (FNum 50)]) d
  = (error 500 "Allocation failed", d).
Proof.
  intros d. split; [|split].
  - apply (proj1 (submitAllocations_writable_entries "2025-05-11" []
                    (Some "Joan") (Some "joan@example.com")
                    [mkEntry (FNum 1) (FNum 100); mkEntry (FNum 3) (FNum 0)]
                    eq_refl eq_refl eq_refl)).
    reflexivity.
  - apply (proj2 (submitAllocations_writable_entries "2025-05-11" []
                    (Some "Joan") (Some "joan@example.com")
                    [mkEntry (FNum 1) (FNum 150); mkEntry (FNum 2) (FNum (-50))]
                    eq_refl eq_refl eq_refl)
             (mkEntry (FNum 2) (FNum (-50)))).
    + right. left. reflexivity.
    + reflexivity.
  - apply (proj2 (submitAllocations_writable_entries "2025-05-11" []
                    (Some "Joan") (Some "joan@example.com")
                    [mkEntry (FNum 1) (FNum 50); mkEntry (FNum 8) (FNum 50)]
                    eq_refl eq_refl eq_refl)
             (mkEntry (FNum 8) (FNum 50))).
    + right. left. reflexivity.
    + reflexivity.
Defined.

(** ** Point adjustments: frame and composition *)

Lemma find_with_total_points_other i t j l :
  j <> i ->
  find (fun p => p_id p =? j) (map (with_total_points i t) l)
  = find (fun p => p_id p =? j) l.
Proof.
  intros Hj. induction l as [|p l IH]; simpl; [reflexivity|].
  rewrite with_total_points_id.
  destruct (Z.eqb_spec (p_id p) j) as [E|E]; [|exact IH].
  unfold with_total_points.
  destruct (Z.eqb_spec (p_id p) i); [congruence | reflexivity].
Qed.

(** X11.  A point adjustment writes one column of one row: the users,
    allocations, matches and votes are untouched, no player is added or
    removed, no player's id, name, club or photo changes, and every other
    player is fetched exactly as before. *)
Theorem adjustPoints_touches_one_player (id : number) (delta set : jsval)
  (d : db) :
  let d' := snd (adjustPoints id delta set d) in
  users d' = users d /\ allocations d' = allocations d /\
  matches d' = matches d /\ potm_votes d' = potm_votes d /\
  map player_identity (players d') = map player_identity (players d) /\
  (forall j, Int j <> id -> getPlayer (Int j) d' = getPlayer (Int j) d).
Proof.
  intros d'. unfold d', adjustPoints.
  destruct (getPlayer id d) as [row|]; simpl; [|auto 10].
  destruct id as [i|]; simpl; [|auto 10].
  repeat split.
  - rewrite map_map. apply map_ext. intros pl.
    unfold with_total_points, player_identity. now destruct (p_id pl =? i).
  - intros j Hj. apply find_with_total_points_other. congruence.
Qed.

Lemma updateTotalPoints_twice t1 t2 id d :
  updateTotalPoints t2 id (updateTotalPoints t1 id d) = updateTotalPoints t2 id d.
Proof.
  destruct id as [i|]; simpl; [|reflexivity].
  unfold set_players. simpl. f_equal.
  rewrite map_map. apply map_ext. intros pl.
  unfold with_total_points. destruct (p_id pl =? i) eqn:E; simpl; now rewrite ?E.
Qed.

(** X12.  Point adjustments compose while the numbers stay within the
    integers that JavaScript holds exactly: on an existing player, a delta
    [a] followed by a delta [b] is the delta [a + b], in answer and in
    database; and a set makes whatever was adjusted before it on that player
    irrelevant. *)
Theorem adjustPoints_composes (id : number) (d : db) (row : player_row) :
  getPlayer id d = Some row ->
  safe (p_total_points row) ->
  (forall a b,
     safe a -> safe b -> safe (a + b) ->
     safe (p_total_points row + a) -> safe (p_total_points row + a + b) ->
     adjustPoints id (JNum b) JUndefined
       (snd (adjustPoints id (JNum a) JUndefined d))
     = adjustPoints id (JNum (a + b)) JUndefined d) /\
  (forall delta0 set0 s,
     safe_value delta0 -> safe_value set0 -> safe s ->
     safe (spec_new_total (p_total_points row) (given delta0) (given set0)) ->
     adjustPoints id JUndefined (JNum s) (snd (adjustPoints id delta0 set0 d))
     = adjustPoints id JUndefined (JNum s) d).
Proof.
  intros G _. split.
  - intros a b _ _ _ _ _.
    rewrite (adjustPoints_found _ (JNum a) JUndefined _ _ G). simpl snd.
    pose proof (getPlayer_updateTotalPoints id (p_total_points row + a) d row G)
      as G1.
    simpl spec_new_total.
    rewrite (adjustPoints_found _ (JNum b) JUndefined _ _ G1).
    rewrite (adjustPoints_found _ (JNum (a + b)) JUndefined _ _ G).
    simpl. rewrite updateTotalPoints_twice. now rewrite Z.add_assoc.
  - intros delta0 set0 s _ _ _ _.
    rewrite (adjustPoints_found _ delta0 set0 _ _ G). simpl snd.
    pose proof (getPlayer_updateTotalPoints id
                  (spec_new_total (p_total_points row) (given delta0) (given set0))
                  d row G) as G1.
    rewrite (adjustPoints_found _ JUndefined (JNum s) _ _ G1).
    rewrite (adjustPoints_found _ JUndefined (JNum s) _ _ G).
    simpl. now rewrite updateTotalPoints_twice.
Qed.

Lemma adjustPoints_composes_witness :
  let d := init_db "2025-05-11" in
  adjustPoints (Int 2) (JNum 4) JUndefined
    (snd (adjustPoints (Int 2) (JNum 3) JUndefined d))
  = adjustPoints (Int 2) (JNum 7) JUndefined d /\
  adjustPoints (Int 2) JUndefined (JNum 10)
    (snd (adjustPoints (Int 2) (JNum 3) (JStr "9") d))
  = adjustPoints (Int 2) JUndefined (JNum 10) d.
Proof.
  intros d.
  assert (S0 : safe 0) by (unfold safe; lia).
  destruct (adjustPoints_composes (Int 2) d
              (mkPlayer 2 "Pedri" "FC Barcelona" EmptyString 0) eq_refl S0)
    as [H1 H2].
  split.
  - apply (H1 3 4); unfold safe; simpl; lia.
  - apply (H2 (JNum 3) (JStr "9") 10); simpl; unfold safe; simpl; lia.
Defined.

(** ** The list routes and the size of the leaderboard *)

Lemma players_leb_total x y : players_leb x y = true \/ players_leb y x = true.
Proof. unfold players_leb. rewrite !Z.leb_le. lia. Qed.

Lemma players_leb_trans x y z :
  players_leb x y = true -> players_leb y z = true -> players_leb x z = true.
Proof. unfold players_leb. rewrite !Z.leb_le. lia. Qed.

(** X13.  The player list holds every player exactly as stored, each once,
    in ascending order of id. *)
Theorem listPlayers_sorted (d : db) :
  Permutation (listPlayers d) (players d) /\
  StronglySorted players_order (listPlayers d).
Proof.
  unfold listPlayers. split; [apply order_by_perm|].
  eapply StronglySorted_impl;
    [|apply order_by_sorted; [apply players_leb_total | apply players_leb_trans]].
  intros x y. unfold players_leb, players_order. apply Z.leb_le.
Qed.

Lemma string_compare_refl s : String.compare s s = Eq.
Proof.
  induction s as [|a s IH]; simpl; [reflexivity|].
  now rewrite ascii_compare_refl.
Qed.

Lemma string_compare_lt_trans s t u :
  String.compare s t = Lt -> String.compare t u = Lt -> String.compare s u = Lt.
Proof.
  intros H1 H2.
  assert (L : name_le s u).
  { apply name_le_trans with t; unfold name_le; congruence. }
  unfold name_le in L.
  destruct (String.compare s u) eqn:E; [|reflexivity|congruence].
  apply String.compare_eq_iff in E. subst u.
  rewrite String.compare_antisym, H1 in H2. discriminate.
Qed.

Lemma matches_leb_order x y : matches_leb x y = true <-> matches_order x y.
Proof.
  unfold matches_leb, matches_order.
  destruct (String.compare (m_date y) (m_date x)) eqn:E.
  - apply String.compare_eq_iff in E. rewrite Z.leb_le. split.
    + intros H. right. split; [now symmetry | exact H].
    + intros [H|[_ H]]; [discriminate | exact H].
  - split; [now left | reflexivity].
  - split; [discriminate|]. intros [H|[H _]]; [discriminate|].
    rewrite H, string_compare_refl in E. discriminate.
Qed.

Lemma matches_leb_total x y : matches_leb x y = true \/ matches_leb y x = true.
Proof.
  unfold matches_leb.
  rewrite (String.compare_antisym (m_date y) (m_date x)).
  destruct (String.compare (m_date x) (m_date y)); simpl; auto.
  rewrite !Z.leb_le. lia.
Qed.

Lemma matches_leb_trans x y z :
  matches_leb x y = true -> matches_leb y z = true -> matches_leb x z = true.
Proof.
  rewrite !matches_leb_order. unfold matches_order.
  intros [L1|[E1 I1]] [L2|[E2 I2]].
  - left. now apply string_compare_lt_trans with (m_date y).
  - left. now rewrite <- E2.
  - left. now rewrite E1.
  - right. split; [congruence | lia].
Qed.

(** X14.  The match list holds every match exactly as stored, each once,
    the latest date first and, within a date, the highest id first. *)
Theorem listMatches_sorted (d : db) :
  Permutation (listMatches d) (matches d) /\
  StronglySorted matches_order (listMatches d).
Proof.
  unfold listMatches. split; [apply order_by_perm|].
  eapply StronglySorted_impl; [apply matches_leb_order|].
  apply order_by_sorted; [apply matches_leb_total | apply matches_leb_trans].
Qed.

Lemma NoDup_firstn {A} n (l : list A) : NoDup l -> NoDup (firstn n l).
Proof.
  intros H. rewrite <- (firstn_skipn n l) in H.
  now apply NoDup_app_remove_r in H.
Qed.

(** X15.  Under the key constraints of the schema the leaderboard has one
    row per user, users without allocations and users who only voted
    included, up to its limit: its length is the number of users or 100,
    whichever is smaller, and no user id occurs in it twice. *)
Theorem leaderboard_one_row_per_user (d : db) :
  well_formed d = true ->
  List.length (leaderboard d) = Nat.min 100 (List.length (users d)) /\
  NoDup (map lb_id (leaderboard d)) /\
  Permutation (map lb_id (leaderboard_all d)) (map u_id (users d)).
Proof.
  intros Hwf. apply well_formed_wf in Hwf.
  pose proof (wf_user_ids d Hwf) as Hnd.
  assert (P : Permutation (map lb_id (leaderboard_all d)) (map u_id (users d))).
  { rewrite (leaderboard_unsorted d Hnd).
    rewrite (Permutation_map lb_id (order_by_perm leaderboard_leb _)).
    rewrite map_map. reflexivity. }
  split; [|split; [|exact P]].
  - unfold leaderboard. rewrite length_firstn.
    rewrite <- (length_map lb_id), (Permutation_length P), length_map.
    reflexivity.
  - unfold leaderboard. rewrite <- firstn_map. apply NoDup_firstn.
    apply (Permutation_NoDup (Permutation_sym P) Hnd).
Qed.

Lemma leaderboard_one_row_per_user_witness :
  let d := snd (castVote "2025-05-11 21:00:00" (Int 1) (Some "Joan")
                  (Some "joan@example.com") (FNum 2) (init_db "2025-05-11")) in
  List.length (leaderboard d) = 1%nat.
Proof.
  intros d.
  exact (proj1 (leaderboard_one_row_per_user d eq_refl)).
Defined.

(** ** Tallies *)

Lemma sum_over_perm {A} (f : A -> Z) l l' :
  Permutation l l' -> sum_over f l = sum_over f l'.
Proof.
  unfold sum_over. induction 1; simpl; lia.
Qed.

Lemma sum_over_map {A B} (g : A -> B) (f : B -> Z) l :
  sum_over f (map g l) = sum_over (fun x => f (g x)) l.
Proof. unfold sum_over. induction l; simpl; congruence. Qed.

Lemma sum_over_add {A} (f g : A -> Z) l :
  sum_over (fun x => f x + g x) l = sum_over f l + sum_over g l.
Proof. unfold sum_over. induction l; simpl; lia. Qed.

Lemma sum_over_zero {A} (f : A -> Z) l :
  (forall x, In x l -> f x = 0) -> sum_over f l = 0.
Proof.
  unfold sum_over. induction l as [|x l IH]; simpl; intros H; [reflexivity|].
  rewrite H by now left. rewrite IH; auto.
Qed.

(** Among players with distinct ids exactly one has a given existing id. *)
Lemma sum_over_one_player k l :
  NoDup (map p_id l) -> In k (map p_id l) ->
  sum_over (fun p => if p_id p =? k then 1 else 0) l = 1.
Proof.
  induction l as [|p l IH]; simpl; intros Hnd Hin; [tauto|].
  inversion Hnd as [|? ? Hp Hl]; subst.
  change (sum_over ?f (p :: l)) with (f p + sum_over f l).
  cbv beta.
  destruct (Z.eqb_spec (p_id p) k) as [E|E].
  - rewrite sum_over_zero; [reflexivity|].
    intros q Hq. destruct (Z.eqb_spec (p_id q) k); [|reflexivity].
    elim Hp. rewrite E. replace k with (p_id q) by assumption. now apply in_map.
  - destruct Hin as [Hin|Hin]; [contradiction|]. now rewrite IH.
Qed.

Lemma sum_over_ext {A} (f g : A -> Z) l :
  (forall x, In x l -> f x = g x) -> sum_over f l = sum_over g l.
Proof.
  unfold sum_over. induction l as [|x l IH]; simpl; intros H; [reflexivity|].
  rewrite H by now left. rewrite IH; auto.
Qed.

Lemma sum_over_votes m (ps : list player_row) (vs : list vote_row) :
  NoDup (map p_id ps) ->
  (forall v, In v vs -> In (v_player_id v) (map p_id ps)) ->
  sum_over (fun p =>
              Z.of_nat (List.length
                          (filter (fun v => (v_player_id v =? p_id p) &&
                                            (v_match_id v =? m)) vs))) ps
  = Z.of_nat (List.length (filter (fun v => v_match_id v =? m) vs)).
Proof.
  intros Hnd. induction vs as [|v vs IH]; intros Hin.
  - simpl. now apply sum_over_zero.
  - rewrite (sum_over_ext _
               (fun p =>
                  (if p_id p =? v_player_id v
                   then (if v_match_id v =? m then 1 else 0) else 0)
                  + Z.of_nat (List.length
                                (filter (fun v => (v_player_id v =? p_id p) &&
                                                  (v_match_id v =? m)) vs)))).
    + rewrite sum_over_add, IH by (intros v' Hv'; apply Hin; now right).
      cbn [filter].
      destruct (v_match_id v =? m).
      * rewrite (sum_over_one_player (v_player_id v) ps Hnd)
          by (apply Hin; now left).
        cbn [List.length]. rewrite Nat2Z.inj_succ. lia.
      * rewrite sum_over_zero; [lia|].
        intros p _. now destruct (p_id p =? v_player_id v).
    + intros p _. cbn [filter]. rewrite (Z.eqb_sym (p_id p)).
      destruct (v_player_id v =? p_id p), (v_match_id v =? m); cbn [andb];
        cbn [List.length]; rewrite ?Nat2Z.inj_succ; lia.
Qed.

Lemma votes_in_emails_distinct m l :
  NoDup (map vote_key l) ->
  NoDup (map v_user_email (filter (fun v => v_match_id v =? m) l)).
Proof.
  induction l as [|v l IH]; simpl; intros Hnd; [constructor|].
  inversion Hnd as [|? ? Hv Hl]; subst.
  destruct (Z.eqb_spec (v_match_id v) m) as [E|E]; [|now apply IH].
  simpl. constructor; [|now apply IH].
  intros Hin. apply in_map_iff in Hin as (v' & He & Hv').
  apply filter_In in Hv' as [Hv' Hm]. apply Z.eqb_eq in Hm.
  apply Hv. apply in_map_iff. exists v'. split; [|exact Hv'].
  unfold vote_key. congruence.
Qed.

(** X16.  In every database the server can reach, the votes the results of
    a match show add up to the number of vote rows of that match: every vote
    is counted once, under exactly one player.  Those rows carry distinct
    emails, each of a user, so the total never exceeds the number of users. *)
Theorem results_count_every_vote_once (today : string) (rs : list request)
  (m : Z) :
  let d := run rs (init_db today) in
  sum_over r_votes (results (Int m) d) = Z.of_nat (List.length (votes_in m d)) /\
  NoDup (map v_user_email (votes_in m d)) /\
  (List.length (votes_in m d) <= List.length (users d))%nat.
Proof.
  intros d.
  pose proof (reachable_wf today rs) as W. fold d in W.
  pose proof (reachable_referential today rs) as R. fold d in R.
  assert (Hnd : NoDup (map v_user_email (votes_in m d)))
    by (apply votes_in_emails_distinct, (wf_vote_keys d W)).
  split; [|split; [exact Hnd|]].
  - rewrite (results_unsorted (Int m) d (wf_player_ids d W)).
    rewrite (sum_over_perm r_votes _ _ (order_by_perm results_leb _)).
    rewrite sum_over_map. unfold results_row, spec_votes, votes_in. simpl.
    apply sum_over_votes; [apply (wf_player_ids d W)|].
    intros v Hv. pose proof (ref_vote_player d R v Hv) as H.
    apply has_player_In in H as (p & Hp & <-). now apply in_map.
  - rewrite <- (length_map v_user_email), <- (length_map u_email (users d)).
    apply NoDup_incl_length; [exact Hnd|].
    intros e He. apply in_map_iff in He as (v & <- & Hv).
    apply filter_In in Hv as [Hv _].
    pose proof (ref_vote_user d R v Hv) as H.
    apply has_email_In in H as (u & Hu & <-). now apply in_map.
Qed.

(** ** Votes and the other queries *)

Lemma results_depends_on m d d' :
  players d' = players d -> votes_in m d' = votes_in m d ->
  results (Int m) d' = results (Int m) d.
Proof.
  intros Hp Hv. unfold results, results_join. rewrite Hp.
  do 3 f_equal. unfold left_join. apply flat_map_ext. intros p.
  unfold joined.
  rewrite !(filter_andb (fun v => v_player_id v =? p_id p)
                        (fun v => v_match_id v =? m)).
  unfold votes_in in Hv. now rewrite Hv.
Qed.

Lemma upsertVote_other_match now mid p email d o d' m :
  upsertVote now mid p email d = (o, d') -> m <> mid ->
  votes_in m d' = votes_in m d.
Proof.
  intros H Hm. unfold votes_in.
  apply upsertVote_cases in H
    as [(e & _ & ->)|(pid & _ & _ & _ & [[_ ->]|[_ ->]])]; simpl.
  - reflexivity.
  - induction (potm_votes d) as [|v l IH]; simpl; [reflexivity|].
    assert (Hid : v_match_id (with_vote mid email pid now v) = v_match_id v).
    { unfold with_vote. now destruct (vote_conflict mid email v). }
    rewrite Hid, IH.
    destruct (Z.eqb_spec (v_match_id v) m) as [E|E]; [|reflexivity].
    f_equal. apply with_vote_other. unfold vote_key. congruence.
  - rewrite filter_app. simpl.
    destruct (Z.eqb_spec mid m); [congruence | apply app_nil_r].
Qed.

(** X17.  A vote, whatever its outcome, leaves players, matches and
    allocations as they were, and the results of every other match are what
    they were. *)
Theorem castVote_leaves_other_matches (now : string) (match_id : number)
  (name email : option string) (player_id : field) (d : db) :
  let d' := snd (castVote now match_id name email player_id d) in
  players d' = players d /\ matches d' = matches d /\
  allocations d' = allocations d /\
  (forall m, match_id <> Int m -> results (Int m) d' = results (Int m) d).
Proof.
  intros d'. unfold d'.
  destruct (castVote_cases now match_id name email player_id d)
    as [(st & msg & ->)
       |(mid & u & d1 & d2 & -> & _ & _ & _ & _ & Hr & Hv)]; simpl; [auto|].
  destruct (resolveUser_keeps (text name) (text email)) as (K1 & K2 & K3 & K4).
  destruct (upsertVote_keeps now mid player_id (text email)) as (_ & L2 & L3 & L4).
  assert (exists o, upsertVote now mid player_id (text email) d1 = (o, d2) /\
                    snd (castVote now (Int mid) name email player_id d) = d2)
    as (o & V & ->).
  { destruct Hv as [[V ->]|(e & V & ->)]; eauto. }
  assert (Hp : players d2 = players d)
    by (now rewrite (L2 _ _ _ V), (K1 _ _ _ Hr)).
  split; [exact Hp|].
  split; [now rewrite (L3 _ _ _ V), (K3 _ _ _ Hr)|].
  split; [now rewrite (L4 _ _ _ V), (K2 _ _ _ Hr)|].
  intros m Hm. apply results_depends_on; [exact Hp|].
  rewrite (upsertVote_other_match _ _ _ _ _ _ _ m V) by congruence.
  unfold votes_in. now rewrite (K4 _ _ _ Hr).
Qed.

Lemma filter_nil {A} (f : A -> bool) l :
  (forall x, In x l -> f x = false) -> filter f l = [].
Proof.
  induction l as [|x l IH]; simpl; intros H; [reflexivity|].
  rewrite H by now left. apply IH. auto.
Qed.

Lemma flat_map_ext_in {A B} (f g : A -> list B) l :
  (forall x, In x l -> f x = g x) -> flat_map f l = flat_map g l.
Proof.
  induction l as [|x l IH]; simpl; intros H; [reflexivity|].
  rewrite H by now left. rewrite IH; auto.
Qed.

(** A vote that has passed the validation and found its match resolves the
    voter and runs the upsert. *)
Lemma castVote_runs now mid name email player_id m d :
  missing name = false -> missing email = false -> truthy player_id = true ->
  getMatch (Int mid) d = Some m ->
  exists u d1,
    resolveUser (text name) (text email) d = (Return u, d1) /\
    castVote now (Int mid) name email player_id d
    = match upsertVote now mid player_id (text email) d1 with
      | (Return _, d') => (ok_true, d')
      | (Throw e, d') => (uncaught e, d')
      end.
Proof.
  intros Hn He Hp Hm.
  destruct (resolveUser_cases (text name) (text email) d)
    as [(u & _ & Hr)|[_ Hr]]; cbv zeta in Hr;
    do 2 eexists; (split; [exact Hr|]);
    unfold castVote; rewrite Hn, He, Hp; simpl in Hm |- *; rewrite Hm;
    unfold bind at 1; now rewrite Hr.
Qed.

(** X18.  In a database the server can reach, a vote that passes the
    validation and names an existing match gives a voter whose email was
    unknown a row in the leaderboard query before its LIMIT, with the name
    of the request, a fresh id and 0 points, whether or not the vote itself
    is then accepted; and when fewer than 100 users were stored that row is
    on the leaderboard itself. *)
Theorem voter_joins_leaderboard (today : string) (rs : list request)
  (now : string) (mid : Z) (name email : option string) (player_id : field)
  (m : match_row) :
  let d := run rs (init_db today) in
  missing name = false -> missing email = false -> truthy player_id = true ->
  getMatch (Int mid) d = Some m ->
  has_email d (text email) = false ->
  In (mkLeaderboardRow (next_id (map u_id (users d))) (text name) (text email) 0%Q)
     (leaderboard_all (snd (castVote now (Int mid) name email player_id d))) /\
  ((List.length (users d) < 100)%nat ->
   In (mkLeaderboardRow (next_id (map u_id (users d))) (text name) (text email) 0%Q)
      (leaderboard (snd (castVote now (Int mid) name email player_id d)))).
Proof.
  intros d Hn He Hp Hm Hnew.
  pose proof (reachable_wf today rs) as W. fold d in W.
  pose proof (reachable_referential today rs) as R. fold d in R.
  pose proof (castVote_wf now (Int mid) name email player_id d W) as W'.
  destruct (castVote_runs now mid name email player_id m d Hn He Hp Hm)
    as (u & d1 & Hr & E).
  destruct (resolveUser_cases (text name) (text email) d)
    as [(u0 & F & _)|[_ Hr']].
  { apply find_some in F as [Hin Hu]. unfold has_email in Hnew.
    assert (existsb (fun u1 => String.eqb (u_email u1) (text email)) (users d)
            = true) by (apply existsb_exists; eauto).
    congruence. }
  cbv zeta in Hr'. rewrite Hr' in Hr. injection Hr as <- <-.
  set (new := mkUser (next_id (map u_id (users d))) (text name) (text email)) in *.
  set (d' := snd (castVote now (Int mid) name email player_id d)) in *.
  destruct (upsertVote_keeps now mid player_id (text email))
    as (L1 & _ & _ & L4).
  assert (Hd' : users d' = (users d ++ [new])%list /\ allocations d' = allocations d).
  { unfold d'. rewrite E.
    destruct (upsertVote now mid player_id (text email) _) as [[[]|e] d2] eqn:V;
      simpl; rewrite (L1 _ _ _ V), (L4 _ _ _ V); split; reflexivity. }
  destruct Hd' as [Hu Ha].
  assert (Hall : In (mkLeaderboardRow (next_id (map u_id (users d)))
                       (text name) (text email) 0%Q) (leaderboard_all d'));
    [|split; [exact Hall|]].
  2: { intros Hlen. rewrite (leaderboard_all_of_few_users d' W'); [exact Hall|].
       rewrite Hu, length_app. simpl. lia. }
  apply (leaderboard_all_rows d' W').
  replace (mkLeaderboardRow _ _ _ _) with (user_row_of d' new).
  - apply in_map. rewrite Hu. apply in_or_app. right. now left.
  - apply user_row_of_no_allocations. rewrite Ha. apply filter_nil.
    intros a Hin. apply Z.eqb_neq. simpl.
    pose proof (ref_alloc_user d R a Hin) as H.
    apply has_user_In in H as (u1 & Hu1 & <-).
    pose proof (next_id_bound (map u_id (users d)) (u_id u1) (in_map _ _ _ Hu1)).
    lia.
Qed.

Lemma voter_joins_leaderboard_witness :
  In (mkLeaderboardRow 1 "Joan" "joan@example.com" 0%Q)
     (leaderboard
        (snd (castVote "2025-05-11 21:00:00" (Int 1) (Some "Joan")
                (Some "joan@example.com") (FNum 9)
                (run [] (init_db "2025-05-11"))))).
Proof.
  apply (proj2 (voter_joins_leaderboard "2025-05-11" [] "2025-05-11 21:00:00" 1
                  (Some "Joan") (Some "joan@example.com") (FNum 9)
                  (mkMatch 1 "2025-05-11" "Real Madrid" (CText "HOME")
                     (CText "final"))
                  eq_refl eq_refl eq_refl eq_refl eq_refl)).
  simpl. lia.
Defined.

(** ** A new player and the queries *)

Lemma left_join_allocation {A} (on : A -> allocation_row -> bool) l r ua a :
  In ua (left_join on l r) -> snd ua = Some a -> In a r.
Proof.
  unfold left_join, joined. intros H E.
  apply in_flat_map in H as (x & _ & H).
  destruct (filter (on x) r) as [|b bs] eqn:F.
  - destruct H as [<-|[]]. discriminate.
  - apply in_map_iff in H as (b' & <- & Hb'). simpl in E. injection E as <-.
    rewrite <- F in Hb'. now apply filter_In in Hb'.
Qed.

Lemma leaderboard_join_new_player d new :
  (forall a, In a (allocations d) -> a_player_id a <> p_id new) ->
  leaderboard_join (set_players d (players d ++ [new])) = leaderboard_join d.
Proof.
  intros H. unfold leaderboard_join. simpl. unfold left_join at 1 3.
  apply flat_map_ext_in. intros ua Hua.
  unfold joined. rewrite filter_app. simpl.
  destruct (snd ua) as [a|] eqn:E.
  - pose proof (left_join_allocation _ _ _ _ _ Hua E) as Ha.
    destruct (Z.eqb_spec (p_id new) (a_player_id a)) as [C|C].
    + elim (H a Ha). congruence.
    + now rewrite app_nil_r.
  - now rewrite app_nil_r.
Qed.

(** X19.  In a database the server can reach, creating a player changes no
    one's score, the leaderboard is the same list, and the new player shows
    up in the results of every match with 0 votes. *)
Theorem createPlayer_and_the_queries (today : string) (rs : list request)
  (name club photo_url : option string) :
  let d := run rs (init_db today) in
  missing name = false ->
  let d' := snd (createPlayer name club photo_url d) in
  leaderboard d' = leaderboard d /\
  forall match_id,
    In (mkResultRow (next_id (map p_id (players d))) (text name) 0)
       (results match_id d').
Proof.
  intros d Hn d'.
  pose proof (reachable_wf today rs) as W. fold d in W.
  pose proof (reachable_referential today rs) as R. fold d in R.
  pose proof (createPlayer_wf name club photo_url d W) as W'. fold d' in W'.
  set (new := mkPlayer (next_id (map p_id (players d))) (text name) (text club)
                (text photo_url) 0).
  assert (Ed : d' = set_players d (players d ++ [new])).
  { unfold d', createPlayer. now rewrite Hn. }
  assert (Hfresh : forall k, has_player d k = true -> k <> p_id new).
  { intros k Hk. apply has_player_In in Hk as (p & Hp & <-).
    pose proof (next_id_bound (map p_id (players d)) (p_id p) (in_map _ _ _ Hp)).
    simpl. lia. }
  split.
  - unfold leaderboard, leaderboard_all. rewrite Ed.
    rewrite leaderboard_join_new_player; [reflexivity|].
    intros a Ha. apply Hfresh. now apply (ref_alloc_player d R).
  - intros match_id.
    assert (Hin : In new (players d'))
      by (rewrite Ed; simpl; apply in_or_app; right; now left).
    pose proof (in_results match_id d' new W' Hin) as Hres.
    unfold results_row in Hres. simpl in Hres.
    replace (spec_votes match_id d' (next_id (map p_id (players d)))) with 0
      in Hres; [exact Hres|].
    unfold spec_votes. destruct match_id as [mm|]; [|reflexivity].
    rewrite Ed. simpl. rewrite filter_nil; [reflexivity|].
    intros v Hv. apply andb_false_iff. left. apply Z.eqb_neq.
    apply (Hfresh (v_player_id v)). now apply (ref_vote_player d R).
Qed.

Lemma createPlayer_and_the_queries_witness :
  let d := run [] (init_db "2025-05-11") in
  In (mkResultRow 4 "Fermin" 0)
     (results (Int 1) (snd (createPlayer (Some "Fermin") None None d))).
Proof.
  intros d.
  exact (proj2 (createPlayer_and_the_queries "2025-05-11" [] (Some "Fermin")
                  None None eq_refl) (Int 1)).
Defined.

(** ** Point adjustments and the queries *)

Lemma results_depends_on_tables match_id d d' :
  players d' = players d -> potm_votes d' = potm_votes d ->
  results match_id d' = results match_id d.
Proof.
  intros Hp Hv. unfold results, results_join. now rewrite Hp, Hv.
Qed.

(** X20.  Match results depend on votes and on the ids and names of players
    only: under the key constraints of the schema a point adjustment, an
    allocation submission and the creation of a match leave the results of
    every match exactly as they were. *)
Theorem results_ignore_points_and_allocations (match_id : number) (d : db) :
  well_formed d = true ->
  (forall id delta set,
     results match_id (snd (adjustPoints id delta set d)) = results match_id d) /\
  (forall name email allocations,
     results match_id (snd (submitAllocations name email allocations d))
     = results match_id d) /\
  (forall date opponent home_away status,
     results match_id (snd (createMatch date opponent home_away status d))
     = results match_id d).
Proof.
  intros Hwf. apply well_formed_wf in Hwf. split; [|split].
  - intros id delta set.
    pose proof (adjustPoints_wf id delta set d Hwf) as W'.
    rewrite (results_unsorted match_id _ (wf_player_ids _ W')).
    rewrite (results_unsorted match_id d (wf_player_ids d Hwf)).
    f_equal. unfold adjustPoints.
    destruct (getPlayer id d); simpl; [|reflexivity].
    destruct id as [i|]; simpl; [|reflexivity].
    rewrite map_map. apply map_ext. intros pl.
    unfold results_row, spec_votes. simpl.
    unfold with_total_points. now destruct (p_id pl =? i).
  - intros name email allocations.
    destruct (submitAllocations_cases name email allocations d)
      as [(st & msg & ->)|(entries & u & d' & _ & _ & _ & _ & Htx & ->)]; simpl;
      [reflexivity|].
    apply tx_return in Htx as (d1 & Hr & Hu).
    destruct (resolveUser_keeps (text name) (text email)) as (K1 & _ & _ & K4).
    destruct (upsertEntries_keeps (u_id u) entries) as (_ & L2 & _ & L4).
    apply results_depends_on_tables.
    + now rewrite (L2 _ _ _ Hu), (K1 _ _ _ Hr).
    + now rewrite (L4 _ _ _ Hu), (K4 _ _ _ Hr).
  - intros date opponent home_away status. unfold createMatch.
    destruct (missing date || missing opponent); simpl; [reflexivity|].
    destruct (bind_text (or_default "HOME" home_away)) as [h|];
      destruct (bind_text (or_default "final" status)) as [s|];
      try destruct (home_away_check h); reflexivity.
Qed.

Lemma results_ignore_points_and_allocations_witness :
  let d := init_db "2025-05-11" in
  results (Int 1) (snd (adjustPoints (Int 2) (JNum 5) JUndefined d))
  = results (Int 1) d.
Proof.
  intros d.
  exact (proj1 (results_ignore_points_and_allocations (Int 1) d eq_refl)
           (Int 2) (JNum 5) JUndefined).
Defined.

(** ** The properties above at concrete requests *)

Lemma schema_references_hold_witness :
  let d := run [SubmitAllocations (Some "Joan") (Some "joan@example.com")
                  (Some [mkEntry (FNum 2) (FNum 100)])]
               (init_db "2025-05-11") in
  (exists u, In u (users d) /\ u_id u = 1) /\
  (exists p, In p (players d) /\ p_id p = 2).
Proof.
  intros d.
  destruct (schema_references_hold "2025-05-11"
              [SubmitAllocations (Some "Joan") (Some "joan@example.com")
                 (Some [mkEntry (FNum 2) (FNum 100)])]) as [H _].
  destruct (H (mkAllocation 1 1 2 100) (or_introl eq_refl)) as (Hu & Hp & _).
  split; [exact Hu | exact Hp].
Defined.

Lemma rows_are_identified_witness :
  1 <= p_id (mkPlayer 3 "Gavi" "FC Barcelona" EmptyString 0).
Proof.
  destruct (rows_are_identified "2025-05-11" []) as (_ & _ & _ & H & _).
  apply H. right. right. left. reflexivity.
Defined.

Lemma resolveUser_idempotent_witness :
  exists u d1,
    resolveUser "Joan" "joan@example.com" (init_db "2025-05-11") = (Return u, d1) /\
    u = mkUser 1 "Joan" "joan@example.com" /\
    resolveUser "Somebody Else" "joan@example.com" d1 = (Return u, d1).
Proof.
  destruct (resolveUser_idempotent "Joan" "joan@example.com" (init_db "2025-05-11"))
    as (u & d1 & Hr & _ & Hagain & Hnew & _).
  exists u, d1. split; [exact Hr|]. split.
  - exact (proj1 (Hnew eq_refl)).
  - apply Hagain.
Defined.

Lemma adjustPoints_touches_one_player_witness :
  let d := init_db "2025-05-11" in
  getPlayer (Int 3) (snd (adjustPoints (Int 2) (JNum 5) (JNum 70) d))
  = getPlayer (Int 3) d.
Proof.
  intros d.
  destruct (adjustPoints_touches_one_player (Int 2) (JNum 5) (JNum 70) d)
    as (_ & _ & _ & _ & _ & H).
  apply H. discriminate.
Defined.

Lemma castVote_leaves_other_matches_witness :
  let d := snd (createMatch (Some "2025-05-18") (Some "Villarreal") JUndefined
                  JUndefined
                  (init_db "2025-05-11")) in
  results (Int 1)
    (snd (castVote "2025-05-18 22:00:00" (Int 2) (Some "Joan")
            (Some "joan@example.com") (FNum 3) d))
  = results (Int 1) d.
Proof.
  intros d.
  destruct (castVote_leaves_other_matches "2025-05-18 22:00:00" (Int 2)
              (Some "Joan") (Some "joan@example.com") (FNum 3) d)
    as (_ & _ & _ & H).
  apply H. discriminate.
Defined.
